(** * pg_mcp_server: connection registry, pool manager, query executor
      and schema cache

    A shallow embedding of the Go packages [internal/utils]
    ([ConnectionStringToUUID]), [internal/core/databases] ([pgxService],
    [executeQueryInternal], [rowsToMaps]) and [internal/core/schemas]
    ([manager]), together with models of the library functions they call
    ([strings], [net/url], [crypto/sha1], [github.com/google/uuid]).

    Go strings are byte strings: they are embedded as [string] (a list of
    [ascii], one per byte).  Go maps are embedded as [gmap]. *)

From Stdlib Require Import ZArith List String Ascii Bool Lia.
From Stdlib Require Import Floats.SpecFloat.
From stdpp Require Import base option list gmap strings.

Local Open Scope string_scope.
Local Open Scope list_scope.

(** ** Go's [strings] package (the functions the sources use) *)

Module strings.

(** [strings.HasPrefix(s, prefix)] *)
Fixpoint HasPrefix (s pre : string) {struct pre} : bool :=
  match pre, s with
  | EmptyString, _ => true
  | String c pre', String d s' => Ascii.eqb c d && HasPrefix s' pre'
  | String _ _, EmptyString => false
  end.

(** Drop the first [n] bytes: the Go slice expression [s[n:]]. *)
Fixpoint drop (n : nat) (s : string) : string :=
  match n, s with
  | O, _ => s
  | S n', String _ s' => drop n' s'
  | S _, EmptyString => EmptyString
  end.

(** Keep the first [n] bytes: the Go slice expression [s[:n]]. *)
Fixpoint take (n : nat) (s : string) : string :=
  match n, s with
  | O, _ => EmptyString
  | S n', String c s' => String c (take n' s')
  | S _, EmptyString => EmptyString
  end.

(** [strings.TrimPrefix(s, prefix)] *)
Definition TrimPrefix (s pre : string) : string :=
  if HasPrefix s pre then drop (String.length pre) s else s.

(** [strings.Index(s, substr)]: index of the first occurrence, [None]
    for Go's -1. *)
Fixpoint Index (s sub : string) : option nat :=
  if HasPrefix s sub then Some O
  else match s with
       | EmptyString => None
       | String _ s' => S <$> Index s' sub
       end.

(** [strings.LastIndex(s, substr)] *)
Fixpoint LastIndex (s sub : string) : option nat :=
  match s with
  | EmptyString => if HasPrefix s sub then Some O else None
  | String _ s' =>
      match LastIndex s' sub with
      | Some i => Some (S i)
      | None => if HasPrefix s sub then Some O else None
      end
  end.

Definition Contains (s sub : string) : bool :=
  match Index s sub with Some _ => true | None => false end.

(** [strings.Cut(s, sep)] returns [(before, after, found)]. *)
Definition Cut (s sep : string) : string * string * bool :=
  match Index s sep with
  | Some i => (take i s, drop (i + String.length sep) s, true)
  | None => (s, EmptyString, false)
  end.

(** [strings.Count(s, c)] for a one-byte separator. *)
Fixpoint CountByte (s : string) (c : ascii) : nat :=
  match s with
  | EmptyString => O
  | String a s' => (if Ascii.eqb a c then 1 else 0) + CountByte s' c
  end.

Definition HasSuffix (s suf : string) : bool :=
  let n := String.length s in
  let k := String.length suf in
  (k <=? n)%nat && String.eqb (drop (n - k) s) suf.

Definition lower_byte (c : ascii) : ascii :=
  let n := nat_of_ascii c in
  if ((65 <=? n) && (n <=? 90))%nat then ascii_of_nat (n + 32) else c.

(** [strings.ToLower] on the ASCII range (the only use is on a URL
    scheme, which [getScheme] restricts to ASCII letters, digits and
    [+-.]). *)
Fixpoint ToLower (s : string) : string :=
  match s with
  | EmptyString => EmptyString
  | String c s' => String (lower_byte c) (ToLower s')
  end.

(** The UTF-8 encodings of the code points for which [unicode.IsSpace]
    holds: U+0009..U+000D, U+0020, U+0085, U+00A0, U+1680,
    U+2000..U+200A, U+2028, U+2029, U+202F, U+205F, U+3000. *)
Definition bytes (l : list nat) : string :=
  string_of_list_ascii (map ascii_of_nat l).

Definition space_runes : list string :=
  map bytes
    ([ [9]; [10]; [11]; [12]; [13]; [32];
       [194; 133]; [194; 160]; [225; 154; 128] ]
     ++ map (fun k => [226; 128; 128 + k]) (seq 0 11)
     ++ [ [226; 128; 168]; [226; 128; 169]; [226; 128; 175];
          [226; 129; 159]; [227; 128; 128] ])%nat.

(** The length of the white-space rune [s] starts with, if any. *)
Definition leading_space (s : string) : option nat :=
  String.length <$> List.find (HasPrefix s) space_runes.

Definition trailing_space (s : string) : option nat :=
  String.length <$> List.find (HasSuffix s) space_runes.

Fixpoint TrimLeft_fuel (fuel : nat) (s : string) : string :=
  match fuel with
  | O => s
  | S f =>
      match leading_space s with
      | Some k => TrimLeft_fuel f (drop k s)
      | None => s
      end
  end.

Fixpoint TrimRight_fuel (fuel : nat) (s : string) : string :=
  match fuel with
  | O => s
  | S f =>
      match trailing_space s with
      | Some k => TrimRight_fuel f (take (String.length s - k) s)
      | None => s
      end
  end.

(** [strings.TrimSpace(s)]: all leading and trailing white space (as
    defined by Unicode) removed.  Every removed rune has at least one
    byte, so [length s] rounds suffice on each side. *)
Definition TrimSpace (s : string) : string :=
  let l := TrimLeft_fuel (String.length s) s in
  TrimRight_fuel (String.length l) l.

End strings.

(** ** [crypto/sha1] *)

Module sha1.
Local Open Scope Z_scope.

Definition w32 (x : Z) : Z := x mod 2 ^ 32.
Definition rotl (n x : Z) : Z :=
  w32 (Z.lor (Z.shiftl x n) (Z.shiftr x (32 - n))).
Definition not32 (x : Z) : Z := 2 ^ 32 - 1 - x.

(** Message padding: 0x80, zeros up to 56 mod 64, the bit length as a
    64-bit big-endian integer. *)
Definition be_bytes (n : nat) (x : Z) : list Z :=
  map (fun i => (x / 256 ^ Z.of_nat (n - 1 - i)) mod 256) (seq 0 n).

Definition pad (msg : list Z) : list Z :=
  let len := Z.of_nat (List.length msg) in
  let zeros := Z.to_nat ((55 - len) mod 64) in
  msg ++ [128] ++ repeat 0 zeros ++ be_bytes 8 (8 * len).

Fixpoint words (fuel : nat) (bs : list Z) : list Z :=
  match fuel, bs with
  | S f, b0 :: b1 :: b2 :: b3 :: rest =>
      (((b0 * 256 + b1) * 256 + b2) * 256 + b3) :: words f rest
  | _, _ => []
  end.

(** The message schedule, newest word first: [w :: ws] holds
    [w(t-1), w(t-2), ...]. *)
Definition next_w (ws : list Z) : Z :=
  rotl 1 (Z.lxor (Z.lxor (nth 2 ws 0) (nth 7 ws 0))
                 (Z.lxor (nth 13 ws 0) (nth 15 ws 0))).

Fixpoint schedule (n : nat) (ws : list Z) : list Z :=
  match n with
  | O => ws
  | S n' => schedule n' (next_w ws :: ws)
  end.

Definition f_k (t : nat) (b c d : Z) : Z * Z :=
  if (t <? 20)%nat then
    (Z.lor (Z.land b c) (Z.land (not32 b) d), 0x5A827999)
  else if (t <? 40)%nat then
    (Z.lxor (Z.lxor b c) d, 0x6ED9EBA1)
  else if (t <? 60)%nat then
    (Z.lor (Z.lor (Z.land b c) (Z.land b d)) (Z.land c d), 0x8F1BBCDC)
  else
    (Z.lxor (Z.lxor b c) d, 0xCA62C1D6).

Definition digest : Type := Z * Z * Z * Z * Z.

Definition round (st : digest) (tw : nat * Z) : digest :=
  let '(a, b, c, d, e) := st in
  let '(t, w) := tw in
  let '(f, k) := f_k t b c d in
  (w32 (rotl 5 a + f + e + k + w), a, rotl 30 b, c, d).

Definition block (h : digest) (chunk : list Z) : digest :=
  let ws := rev (schedule 64 (rev (words 16 chunk))) in
  let '(a, b, c, d, e) :=
    fold_left round (combine (seq 0 80) ws) h in
  let '(h0, h1, h2, h3, h4) := h in
  (w32 (h0 + a), w32 (h1 + b), w32 (h2 + c), w32 (h3 + d), w32 (h4 + e)).

Fixpoint blocks (fuel : nat) (h : digest) (bs : list Z) : digest :=
  match fuel, bs with
  | S f, _ :: _ => blocks f (block h (firstn 64 bs)) (skipn 64 bs)
  | _, _ => h
  end.

Definition init : digest :=
  (0x67452301, 0xEFCDAB89, 0x98BADCFE, 0x10325476, 0xC3D2E1F0).

(** [sha1.Sum(msg)]: the 20-byte digest. *)
Definition Sum (msg : list Z) : list Z :=
  let p := pad msg in
  let '(h0, h1, h2, h3, h4) := blocks (List.length p) init p in
  be_bytes 4 h0 ++ be_bytes 4 h1 ++ be_bytes 4 h2
    ++ be_bytes 4 h3 ++ be_bytes 4 h4.

End sha1.

(** ** [github.com/google/uuid] *)

Module uuid.
Local Open Scope Z_scope.

(** A UUID is 16 bytes. *)
Definition UUID : Type := list Z.

Definition bytes_of_string (s : string) : list Z :=
  map (fun c => Z.of_nat (nat_of_ascii c)) (list_ascii_of_string s).

(** [uuid.NewHash(sha1.New(), space, data, 5)]: hash the name space
    followed by the data, keep 16 bytes, set version and variant. *)
Definition set_version (u : UUID) : UUID :=
  let u6 := Z.lor (Z.land (nth 6 u 0) 0x0f) (Z.shiftl 5 4) in
  let u8 := Z.lor (Z.land (nth 8 u 0) 0x3f) 0x80 in
  <[8%nat := u8]> (<[6%nat := u6]> u).

Definition NewSHA1 (space : UUID) (data : list Z) : UUID :=
  set_version (firstn 16 (sha1.Sum (space ++ data))).

Definition hex_digit (d : Z) : ascii :=
  if d <? 10 then ascii_of_nat (Z.to_nat (48 + d))
  else ascii_of_nat (Z.to_nat (87 + d)).

Fixpoint hex (bs : list Z) : string :=
  match bs with
  | [] => EmptyString
  | b :: bs' => String (hex_digit (b / 16)) (String (hex_digit (b mod 16)) (hex bs'))
  end.

(** [UUID.String()]: xxxxxxxx-xxxx-xxxx-xxxx-xxxxxxxxxxxx *)
Definition String (u : UUID) : string :=
  hex (firstn 4 u) +:+ "-" +:+ hex (firstn 2 (skipn 4 u)) +:+ "-"
    +:+ hex (firstn 2 (skipn 6 u)) +:+ "-" +:+ hex (firstn 2 (skipn 8 u))
    +:+ "-" +:+ hex (skipn 10 u).

(** [uuid.NameSpaceURL] = 6ba7b811-9dad-11d1-80b4-00c04fd430c8 *)
Definition NameSpaceURL : UUID :=
  [0x6b; 0xa7; 0xb8; 0x11; 0x9d; 0xad; 0x11; 0xd1;
   0x80; 0xb4; 0x00; 0xc0; 0x4f; 0xd4; 0x30; 0xc8].

Definition NameSpaceDNS : UUID :=
  [0x6b; 0xa7; 0xb8; 0x10; 0x9d; 0xad; 0x11; 0xd1;
   0x80; 0xb4; 0x00; 0xc0; 0x4f; 0xd4; 0x30; 0xc8].

End uuid.

(** ** Go values of type [error] *)

(** The errors the sources create or pass on.  [fmt_Errorf msg e] is
    [fmt.Errorf(msg + ": %w", e)]; [external_error] stands for an error
    produced by the driver or the database server. *)
Inductive error : Type :=
  | errors_New (msg : string)
  | fmt_Errorf (msg : string) (wrapped : error)
  | url_Error (op : string) (url : string)
  | external_error (code : string).

(** A Go result pair [(T, error)] in which exactly one side is
    meaningful. *)
Inductive result (A : Type) : Type :=
  | Ok (a : A)
  | Err (e : error).
Arguments Ok {A} a.
Arguments Err {A} e.

(** ** [net/url]: [Parse], [Hostname], [Port], [Userinfo.Username]

    A model of the standard library's parser (as of Go 1.22), kept
    to the fields the sources read.  [RawPath] and [RawFragment], which
    only record the original escaping, are left out. *)

Module url.

Record Userinfo : Type := mkUserinfo {
  username : string;
  password : string;
  passwordSet : bool
}.

Record URL : Type := mkURL {
  Scheme : string;
  Opaque : string;
  User : option Userinfo;
  Host : string;
  Path : string;
  OmitHost : bool;
  ForceQuery : bool;
  RawQuery : string;
  Fragment : string
}.

Definition empty : URL :=
  mkURL "" "" None "" "" false false "" "".

Inductive encoding : Type :=
  | encodePath | encodePathSegment | encodeHost | encodeZone
  | encodeUserPassword | encodeQueryComponent | encodeFragment.

Definition is_host_mode (m : encoding) : bool :=
  match m with encodeHost | encodeZone => true | _ => false end.

Definition byte (c : ascii) : nat := nat_of_ascii c.

Definition in_range (lo hi : string) (c : ascii) : bool :=
  match lo, hi with
  | String l _, String h _ => ((byte l <=? byte c) && (byte c <=? byte h))%nat
  | _, _ => false
  end.

Definition is_alpha (c : ascii) : bool :=
  in_range "a" "z" c || in_range "A" "Z" c.
Definition is_digit (c : ascii) : bool := in_range "0" "9" c.

Definition one_of (set : string) (c : ascii) : bool :=
  existsb (Ascii.eqb c) (list_ascii_of_string set).

Definition ishex (c : ascii) : bool :=
  is_digit c || in_range "a" "f" c || in_range "A" "F" c.

Definition unhex (c : ascii) : nat :=
  if is_digit c then byte c - 48
  else if in_range "a" "f" c then byte c - 97 + 10
  else if in_range "A" "F" c then byte c - 65 + 10
  else 0.

(** [shouldEscape(c, encodeHost)]: unreserved characters, the
    sub-delimiters, colon, square and angle brackets and the double
    quote may appear in a host as they are. *)
Definition shouldEscape_host (c : ascii) : bool :=
  negb (is_alpha c || is_digit c
        || one_of "!$&'()*+,;=:[]<>" c || (byte c =? 34)%nat
        || one_of "-_.~" c).

(** [unescape(s, mode)]; [None] is an [EscapeError] or an
    [InvalidHostError]. *)
Fixpoint unescape (s : string) (mode : encoding) : option string :=
  match s with
  | EmptyString => Some EmptyString
  | String c s' =>
      if Ascii.eqb c "%" then
        match s' with
        | String h1 (String h2 rest) =>
            let v := (unhex h1 * 16 + unhex h2)%nat in
            let is25 := Ascii.eqb h1 "2" && Ascii.eqb h2 "5" in
            if negb (ishex h1 && ishex h2) then None
            else if match mode with encodeHost => true | _ => false end
                    && (unhex h1 <? 8)%nat && negb is25 then None
            else if match mode with encodeZone => true | _ => false end
                    && negb is25 && negb (v =? 32)%nat
                    && shouldEscape_host (ascii_of_nat v) then None
            else String (ascii_of_nat v) <$> unescape rest mode
        | _ => None
        end
      else if Ascii.eqb c "+" then
        String (match mode with
                | encodeQueryComponent => " "%char
                | _ => "+"%char
                end) <$> unescape s' mode
      else if is_host_mode mode && (byte c <? 128)%nat
              && shouldEscape_host c then None
      else String c <$> unescape s' mode
  end.

(** [getScheme]: [Some (scheme, rest)], or [None] for "missing
    protocol scheme". *)
Fixpoint getScheme_from (i : nat) (raw s : string)
  : option (string * string) :=
  match s with
  | EmptyString => Some (EmptyString, raw)
  | String c s' =>
      if is_alpha c then getScheme_from (S i) raw s'
      else if is_digit c || one_of "+-." c then
        match i with
        | O => Some (EmptyString, raw)
        | S _ => getScheme_from (S i) raw s'
        end
      else if Ascii.eqb c ":" then
        match i with
        | O => None
        | S _ => Some (strings.take i raw, s')
        end
      else Some (EmptyString, raw)
  end.

Definition getScheme (raw : string) : option (string * string) :=
  getScheme_from 0 raw raw.

Definition stringContainsCTLByte (s : string) : bool :=
  existsb (fun c => (byte c <? 32)%nat || (byte c =? 127)%nat)
          (list_ascii_of_string s).

(** [validOptionalPort]: empty, or a colon followed by digits only. *)
Definition validOptionalPort (port : string) : bool :=
  match port with
  | EmptyString => true
  | String c ds =>
      Ascii.eqb c ":" && forallb is_digit (list_ascii_of_string ds)
  end.

Definition validUserinfo (s : string) : bool :=
  forallb (fun c => is_alpha c || is_digit c
                    || one_of "-._:~!$&'()*+,;=%@" c)
          (list_ascii_of_string s).

Definition parseHost (host : string) : option string :=
  if strings.HasPrefix host "[" then
    match strings.LastIndex host "]" with
    | None => None
    | Some i =>
        if negb (validOptionalPort (strings.drop (S i) host)) then None
        else
          match strings.Index (strings.take i host) "%25" with
          | Some zone =>
              h1 ← unescape (strings.take zone host) encodeHost;
              h2 ← unescape (strings.drop zone (strings.take i host))
                            encodeZone;
              h3 ← unescape (strings.drop i host) encodeHost;
              Some (h1 +:+ h2 +:+ h3)
          | None => unescape host encodeHost
          end
    end
  else
    match strings.LastIndex host ":" with
    | Some i =>
        if negb (validOptionalPort (strings.drop i host)) then None
        else unescape host encodeHost
    | None => unescape host encodeHost
    end.

Definition parseAuthority (authority : string)
  : option (option Userinfo * string) :=
  match strings.LastIndex authority "@" with
  | None => host ← parseHost authority; Some (None, host)
  | Some i =>
      host ← parseHost (strings.drop (S i) authority);
      let userinfo := strings.take i authority in
      if negb (validUserinfo userinfo) then None
      else if negb (strings.Contains userinfo ":") then
        u ← unescape userinfo encodeUserPassword;
        Some (Some (mkUserinfo u "" false), host)
      else
        let '(name, pw, _) := strings.Cut userinfo ":" in
        u ← unescape name encodeUserPassword;
        p ← unescape pw encodeUserPassword;
        Some (Some (mkUserinfo u p true), host)
  end.

(** [parse(rawURL, viaRequest = false)] *)
Definition parse (rawURL : string) : option URL :=
  if stringContainsCTLByte rawURL then None
  else if String.eqb rawURL "*" then
    Some (mkURL "" "" None "" "*" false false "" "")
  else
    '(scheme0, rest0) ← getScheme rawURL;
    let scheme := strings.ToLower scheme0 in
    let '(rest, force, query) :=
      if strings.HasSuffix rest0 "?"
         && (strings.CountByte rest0 "?" =? 1)%nat
      then (strings.take (String.length rest0 - 1) rest0, true, "")
      else let '(r, q, _) := strings.Cut rest0 "?" in (r, false, q) in
    let has_scheme := negb (String.eqb scheme "") in
    if negb (strings.HasPrefix rest "/") && has_scheme then
      Some (mkURL scheme rest None "" "" false force query "")
    else if negb (strings.HasPrefix rest "/")
            && strings.Contains (fst (fst (strings.Cut rest "/"))) ":"
    then None
    else if (has_scheme || negb (strings.HasPrefix rest "///"))
            && strings.HasPrefix rest "//" then
      let a0 := strings.drop 2 rest in
      let '(authority, rest') :=
        match strings.Index a0 "/" with
        | Some i => (strings.take i a0, strings.drop i a0)
        | None => (a0, "")
        end in
      '(user, host) ← parseAuthority authority;
      path ← unescape rest' encodePath;
      Some (mkURL scheme "" user host path false force query "")
    else
      path ← unescape rest encodePath;
      Some (mkURL scheme "" None "" path
                  (has_scheme && strings.HasPrefix rest "/")
                  force query "").

(** [url.Parse(rawURL)]; the error is a [*url.Error] with operation
    "parse". *)
Definition Parse (rawURL : string) : result URL :=
  let '(u, frag, _) := strings.Cut rawURL "#" in
  match parse u with
  | None => Err (url_Error "parse" u)
  | Some url =>
      if String.eqb frag "" then Ok url
      else match unescape frag encodeFragment with
           | None => Err (url_Error "parse" rawURL)
           | Some f =>
               Ok (mkURL (Scheme url) (Opaque url) (User url) (Host url)
                         (Path url) (OmitHost url) (ForceQuery url)
                         (RawQuery url) f)
           end
  end.

Definition splitHostPort (hostPort : string) : string * string :=
  let '(host, port) :=
    match strings.LastIndex hostPort ":" with
    | Some colon =>
        if validOptionalPort (strings.drop colon hostPort)
        then (strings.take colon hostPort, strings.drop (S colon) hostPort)
        else (hostPort, "")
    | None => (hostPort, "")
    end in
  if strings.HasPrefix host "[" && strings.HasSuffix host "]"
  then (strings.take (String.length host - 2) (strings.drop 1 host), port)
  else (host, port).

Definition Hostname (u : URL) : string := fst (splitHostPort (Host u)).
Definition Port (u : URL) : string := snd (splitHostPort (Host u)).

End url.

(** ** Package [utils]: [ConnectionStringToUUID] *)

Module utils.

(** [var postgresqlNamespace =
      uuid.NewSHA1(uuid.NameSpaceURL, []byte("mcp.cc.com.postgresql"))] *)
Definition postgresqlNamespace : uuid.UUID :=
  Eval vm_compute in
    uuid.NewSHA1 uuid.NameSpaceURL
                 (uuid.bytes_of_string "mcp.cc.com.postgresql").

(** The string that is hashed: [fmt.Sprintf("%s@%s:%s/%s", user, host,
    port, dbName)] with the defaults for port and database name. *)
Definition canonicalString (parsed : url.URL) : string :=
  let user :=
    match url.User parsed with
    | Some ui => url.username ui
    | None => ""
    end in
  let host := url.Hostname parsed in
  let port := url.Port parsed in
  let port := if String.eqb port "" then "5432" else port in
  let dbName := strings.TrimPrefix (url.Path parsed) "/" in
  let dbName := if String.eqb dbName "" then "postgres" else dbName in
  user +:+ "@" +:+ host +:+ ":" +:+ port +:+ "/" +:+ dbName.

Definition ConnectionStringToUUID (connectionString : string)
  : result string :=
  let connectionString :=
    if negb (strings.HasPrefix connectionString "postgresql://")
    then "postgresql://" +:+ connectionString
    else connectionString in
  match url.Parse connectionString with
  | Err err => Err (fmt_Errorf "解析连接字符串失败" err)
  | Ok parsed =>
      let resultUUID :=
        uuid.NewSHA1 postgresqlNamespace
                     (uuid.bytes_of_string (canonicalString parsed)) in
      Ok (uuid.String resultUUID)
  end.

End utils.

(** ** What a call can do besides returning: a run-time panic *)

Inductive outcome (A : Type) : Type :=
  | Returned (a : A)
  | Panicked (reason : string).
Arguments Returned {A} a.
Arguments Panicked {A} reason.

(** ** Values of type [any] handed over by the driver *)

#[local] Set Warnings "-register-all".

Inductive Value : Type :=
  | VNil
  | VString (s : string)
  | VBool (b : bool)
  | VInt64 (n : Z)
  | VInt32 (n : Z)
  | VInt (n : Z)
  | VFloat64 (f : spec_float)
  | VFloat32 (f : spec_float)
  | VStrings (l : list string)       (* []string *)
  | VAnys (l : list Value)           (* []any *)
  | VOther (type_name : string).

(** A result row, [map[string]any]. *)
Abbreviation Row := (gmap string Value).

(** ** The [pgx] driver, as the sources see it *)

Module pgx.

Inductive AccessMode : Type := ReadWrite | ReadOnly.

(** [pgx.Rows] after a successful [tx.Query]: the field descriptions
    (by name), what each [rows.Values()] between two [rows.Next()]
    returns, and the final [rows.Err()]. *)
Record Rows : Type := mkRows {
  FieldDescriptions : list string;
  Values : list (result (list Value));
  RowsErr : option error
}.

(** How the driver answers the calls of one transaction. *)
Record Conn : Type := mkConn {
  Acquire : option error;
  BeginTx : option error;
  Query : string -> list Value -> result Rows;
  Commit : option error
}.

(** The calls made on the driver, in order. *)
Inductive event : Type :=
  | EvAcquire
  | EvBeginTx (mode : AccessMode)
  | EvQuery (sql : string) (args : list Value)
  | EvRowsClose
  | EvRollback
  | EvCommit
  | EvRelease.

End pgx.

Module pgxpool.

(** [pgxpool.Config]: the parsed connection string and the four
    settings the service overrides. *)
Record Config : Type := mkConfig {
  ConnString : string;
  MaxConns : Z;
  MinConns : Z;
  MaxConnLifetime : Z;
  MaxConnIdleTime : Z
}.

(** A [*pgxpool.Pool]: [ptr] is the identity of the allocation. *)
Record Pool : Type := mkPool {
  ptr : nat;
  PoolConfig : Config
}.

(** How the driver answers [ParseConfig] and [NewWithConfig] during
    one call of [GetPool]. *)
Record Driver : Type := mkDriver {
  ParseConfig : string -> result Config;
  NewWithConfig : Config -> option error
}.

End pgxpool.

(** ** Package [config] *)

Module config.
Record Config : Type := mkConfig {
  DBConnMaxLifetime : Z;
  DBConnMaxIdleTime : Z;
  DBMaxOpenConns : Z;
  DBMinOpenConns : Z
}.
End config.

(** The conversion [int32(x)] of a Go [int]: the low 32 bits, signed. *)
Definition int32 (x : Z) : Z := ((x + 2 ^ 31) mod 2 ^ 32 - 2 ^ 31)%Z.

(** ** Package [databases]: [pgxService] and the executor *)

Module databases.

(** The receiver of the methods.  [allocated] counts the pools built so
    far (it numbers the allocations) and [closed] holds the pools on
    which [Close] was called; both belong to the driver's side. *)
Record pgxService : Type := mkService {
  config : config.Config;
  connMap : gmap string string;       (* connID -> connection string *)
  reverseMap : gmap string string;    (* connection string -> connID *)
  pools : gmap string pgxpool.Pool;   (* connID -> pool *)
  allocated : nat;
  closed : gset nat
}.

Definition NewPgxService (cfg : config.Config) : pgxService :=
  mkService cfg ∅ ∅ ∅ 0 ∅.

Definition normalizeConnectionString (connString : string)
  : result string :=
  let trimmed := strings.TrimSpace connString in
  if String.eqb trimmed "" then Err (errors_New "连接字符串不能为空")
  else if negb (strings.HasPrefix trimmed "postgresql://")
          && negb (strings.HasPrefix trimmed "postgres://") then
    match url.Parse ("postgresql://" +:+ trimmed) with
    | Err _ =>
        match url.Parse trimmed with
        | Err errDirect => Err (fmt_Errorf "连接字符串格式无效" errDirect)
        | Ok _ => Ok trimmed
        end
    | Ok _ => Ok ("postgresql://" +:+ trimmed)
    end
  else
    match url.Parse trimmed with
    | Err err => Err (fmt_Errorf "连接字符串格式无效" err)
    | Ok _ => Ok trimmed
    end.

(** [RegisterConnection]: the pair returned is [(connID, error)].  The
    probe of an existing pool on the fast path only starts a goroutine
    that pings it and logs; it changes nothing here.  The last log line
    slices [normalizedConnString[:20]], which panics on a shorter
    string, after both maps were written. *)
Definition RegisterConnection (connString : string) (s : pgxService)
  : outcome (string * option error) * pgxService :=
  match normalizeConnectionString connString with
  | Err err => (Returned ("", Some (fmt_Errorf "无效的连接字符串格式" err)), s)
  | Ok normalizedConnString =>
      match reverseMap s !! normalizedConnString with
      | Some existingConnID => (Returned (existingConnID, None), s)
      | None =>
          (* under the write lock: check again *)
          match reverseMap s !! normalizedConnString with
          | Some existingConnID => (Returned (existingConnID, None), s)
          | None =>
              match utils.ConnectionStringToUUID normalizedConnString with
              | Err err =>
                  (Returned ("err", Some (fmt_Errorf "无效的连接字符串格式" err)), s)
              | Ok newConnID =>
                  let s' :=
                    mkService (config s)
                      (<[newConnID := normalizedConnString]> (connMap s))
                      (<[normalizedConnString := newConnID]> (reverseMap s))
                      (pools s) (allocated s) (closed s) in
                  if (String.length normalizedConnString <? 20)%nat
                  then (Panicked "slice bounds out of range", s')
                  else (Returned (newConnID, None), s')
              end
          end
      end
  end.

Definition DisconnectConnection (connID : string) (s : pgxService)
  : option error * pgxService :=
  match connMap s !! connID with
  | None => (Some (errors_New "未知的 connID"), s)
  | Some connString =>
      let cm := delete connID (connMap s) in
      let rm := delete connString (reverseMap s) in
      match pools s !! connID with
      | Some pool =>
          (None, mkService (config s) cm rm (delete connID (pools s))
                           (allocated s) ({[pgxpool.ptr pool]} ∪ closed s))
      | None =>
          (None, mkService (config s) cm rm (pools s)
                           (allocated s) (closed s))
      end
  end.

Definition GetPool (drv : pgxpool.Driver) (connID : string)
                   (s : pgxService)
  : result pgxpool.Pool * pgxService :=
  match connMap s !! connID with
  | None => (Err (errors_New ("未知的 connID: " +:+ connID)), s)
  | Some connString =>
      match pools s !! connID with
      | Some pool => (Ok pool, s)
      | None =>
          (* under poolMutex: check again *)
          match pools s !! connID with
          | Some pool => (Ok pool, s)
          | None =>
              match pgxpool.ParseConfig drv connString with
              | Err err =>
                  (Err (fmt_Errorf ("解析连接字符串失败 (connID: "
                                    +:+ connID +:+ ")") err), s)
              | Ok poolConfig =>
                  let poolConfig :=
                    pgxpool.mkConfig
                      (pgxpool.ConnString poolConfig)
                      (int32 (config.DBMaxOpenConns (config s)))
                      (int32 (config.DBMinOpenConns (config s)))
                      (config.DBConnMaxLifetime (config s))
                      (config.DBConnMaxIdleTime (config s)) in
                  match pgxpool.NewWithConfig drv poolConfig with
                  | Some err =>
                      (Err (fmt_Errorf ("创建连接池失败 (connID: "
                                        +:+ connID +:+ ")") err), s)
                  | None =>
                      let newPool :=
                        pgxpool.mkPool (allocated s) poolConfig in
                      (Ok newPool,
                       mkService (config s) (connMap s) (reverseMap s)
                                 (<[connID := newPool]> (pools s))
                                 (S (allocated s)) (closed s))
                  end
              end
          end
      end
  end.

(** [CloseAll]: close every pool, then replace the three maps by empty
    ones.  The error returned is always nil. *)
Definition CloseAll (s : pgxService) : option error * pgxService :=
  (None,
   mkService (config s) ∅ ∅ ∅ (allocated s)
             (map_fold (fun _ pool acc => {[pgxpool.ptr pool]} ∪ acc)
                       (closed s) (pools s))).

(** *** The executor *)

(** The inner loop of [rowsToMaps]: [rowMap[fd.Name] = values[i]] for
    each field description in turn; [values[i]] panics past the end. *)
Fixpoint fillRow (fds : list string) (i : nat) (values : list Value)
                 (rowMap : Row) : outcome Row :=
  match fds with
  | [] => Returned rowMap
  | fd :: fds' =>
      match values !! i with
      | None => Panicked "index out of range"
      | Some v => fillRow fds' (S i) values (<[fd := v]> rowMap)
      end
  end.

(** The loop [for rows.Next()] of [rowsToMaps], with the rows seen so
    far in [results]. *)
Fixpoint rowsLoop (fds : list string) (vals : list (result (list Value)))
                  (rowsErr : option error) (results : list Row)
  : outcome (list Row * option error) :=
  match vals with
  | [] =>
      match rowsErr with
      | Some err => Returned (results, Some (fmt_Errorf "迭代结果行时出错" err))
      | None => Returned (results, None)
      end
  | Err err :: _ => Returned ([], Some (fmt_Errorf "读取行数据失败" err))
  | Ok values :: vals' =>
      match fillRow fds 0 values ∅ with
      | Panicked r => Panicked r
      | Returned rowMap => rowsLoop fds vals' rowsErr (results ++ [rowMap])
      end
  end.

Definition rowsToMaps (rows : pgx.Rows)
  : outcome (list Row * option error) :=
  rowsLoop (pgx.FieldDescriptions rows) (pgx.Values rows)
           (pgx.RowsErr rows) [].

Import pgx.

(** [executeQueryInternal]: the value returned and the calls made on
    the driver.  The deferred calls ([rows.Close], the roll-back, the
    release of the connection) run on every way out, a panic
    included. *)
Definition executeQueryInternal (conn : pgx.Conn) (readOnly : bool)
                                (sql : string) (args : list Value)
  : outcome (result (list Row)) * list pgx.event :=
  match Acquire conn with
  | Some err => (Returned (Err (fmt_Errorf "获取数据库连接失败" err)), [EvAcquire])
  | None =>
      let mode := if readOnly then ReadOnly else ReadWrite in
      match BeginTx conn with
      | Some err =>
          (Returned (Err (fmt_Errorf "开始数据库事务失败" err)),
           [EvAcquire; EvBeginTx mode; EvRelease])
      | None =>
          let pre := [EvAcquire; EvBeginTx mode; EvQuery sql args] in
          match Query conn sql args with
          | Err err =>
              (Returned (Err (fmt_Errorf "数据库查询执行错误" err)),
               pre ++ [EvRollback; EvRollback; EvRelease])
          | Ok rows =>
              let unwind := [EvRowsClose; EvRollback; EvRelease] in
              match rowsToMaps rows with
              | Panicked r => (Panicked r, pre ++ unwind)
              | Returned (_, Some err) =>
                  (Returned (Err (fmt_Errorf "转换查询结果失败" err)),
                   pre ++ unwind)
              | Returned (results, None) =>
                  match RowsErr rows with
                  | Some err =>
                      (Returned (Err (fmt_Errorf "迭代查询结果时发生错误" err)),
                       pre ++ unwind)
                  | None =>
                      match Commit conn with
                      | Some err =>
                          (Returned (Err (fmt_Errorf "提交数据库事务失败" err)),
                           pre ++ EvCommit :: unwind)
                      | None =>
                          (Returned (Ok results), pre ++ EvCommit :: unwind)
                      end
                  end
              end
          end
      end
  end.

(** [ExecuteQuery]: fetch (or build) the pool, then run the query on a
    connection of it. *)
Definition ExecuteQuery (drv : pgxpool.Driver)
                        (connect : pgxpool.Pool -> pgx.Conn)
                        (connID : string) (readOnly : bool)
                        (sql : string) (args : list Value)
                        (s : pgxService)
  : outcome (result (list Row)) * list pgx.event * pgxService :=
  match GetPool drv connID s with
  | (Err err, s') =>
      (Returned (Err (fmt_Errorf ("获取连接池失败 (connID: "
                                  +:+ connID +:+ ")") err)), [], s')
  | (Ok pool, s') =>
      (executeQueryInternal (connect pool) readOnly sql args, s')
  end.

End databases.

(** ** Package [schemas]: the schema manager *)

Module schemas.

Definition ColumnConstraint : Type := string.
Definition PrimaryKeyConstraint : ColumnConstraint := "PRIMARY KEY".
Definition ForeignKeyConstraint : ColumnConstraint := "FOREIGN KEY".
Definition UniqueConstraint : ColumnConstraint := "UNIQUE".
Definition CheckConstraint : ColumnConstraint := "CHECK".
Definition NotNullConstraint : ColumnConstraint := "NOT NULL".

Record ForeignKeyInfo : Type := mkForeignKeyInfo {
  ConstraintName : string;
  FKColumns : list string;
  ReferencedSchema : string;
  ReferencedTable : string;
  ReferencedColumns : list string;
  FKDescription : string
}.

Record IndexInfo : Type := mkIndexInfo {
  IndexName : string;
  IndexType : string;
  IndexColumns : list string;
  IsUnique : bool;
  IsPrimary : bool;
  IndexDefinition : string;
  IndexDescription : string
}.

Record ColumnInfo : Type := mkColumnInfo {
  ColumnName : string;
  ColumnType : string;
  IsNullable : bool;
  DefaultValue : option string;       (* *string *)
  ColumnDescription : string;
  Constraints : list ColumnConstraint
}.

Record TableInfo : Type := mkTableInfo {
  TableName : string;
  TableDescription : string;
  RowCount : Z;
  Columns : list ColumnInfo;
  Indexes : list IndexInfo;
  ForeignKeys : list ForeignKeyInfo
}.

Record SchemaInfo : Type := mkSchemaInfo {
  SchemaName : string;
  SchemaDescription : string;
  Tables : list TableInfo
}.

Record DatabaseInfo : Type := mkDatabaseInfo {
  Schemas : list SchemaInfo
}.

(** *** Helpers for values that may be NULL *)

(** [row[key]]: a missing key reads as nil. *)
Definition get (row : Row) (key : string) : Value :=
  default VNil (row !! key).

Definition dbString (v : Value) : string :=
  match v with VString str => str | _ => "" end.

Definition dbStringPtr (v : Value) : option string :=
  match v with VString str => Some str | _ => None end.

(** The conversion [int64(val)] of a floating-point value: truncation
    towards zero; what cannot be represented converts as on amd64. *)
Definition int64_of_float (f : spec_float) : Z :=
  let indefinite := (- 2 ^ 63)%Z in
  match f with
  | S754_zero _ => 0%Z
  | S754_finite sign m e =>
      let mag := if (0 <=? e)%Z then (Z.pos m * 2 ^ e)%Z
                 else (Z.pos m / 2 ^ (- e))%Z in
      let v := if sign then (- mag)%Z else mag in
      if ((- 2 ^ 63 <=? v) && (v <? 2 ^ 63))%Z then v else indefinite
  | _ => indefinite
  end.

Definition dbInt64 (v : Value) : Z :=
  match v with
  | VInt64 val | VInt32 val | VInt val => val
  | VFloat64 val | VFloat32 val => int64_of_float val
  | _ => 0%Z
  end.

Fixpoint stringInSlice (a : string) (list : list string) : bool :=
  match list with
  | [] => false
  | b :: rest => if String.eqb b a then true else stringInSlice a rest
  end.

(** [[]string] from a driver array; nil and the empty slice are both
    [[]]. *)
Definition interfaceSliceToStringSlice (slice : Value) : list string :=
  match slice with
  | VAnys interfaceSlice =>
      omap (fun item => match item with
                        | VString str => Some str
                        | _ => None
                        end) interfaceSlice
  | VStrings stringSlice => stringSlice
  | _ => []
  end.

(** *** The catalog queries (SQL comments and layout dropped) *)

Definition querySchemas : string :=
  "SELECT schema_name, obj_description(pg_namespace.oid, 'pg_namespace') as description FROM information_schema.schemata JOIN pg_namespace ON pg_namespace.nspname = schema_name WHERE schema_name NOT IN ('pg_catalog', 'information_schema', 'pg_toast') AND schema_name NOT LIKE 'pg\_%' ESCAPE '\' AND schema_name NOT LIKE 'temp%' AND schema_name NOT LIKE 'topolo%' ORDER BY schema_name".

Definition queryTables : string :=
  "SELECT t.table_name, obj_description(c.oid, 'pg_class') as description, c.reltuples::bigint as row_count FROM information_schema.tables t JOIN pg_namespace n ON t.table_schema = n.nspname JOIN pg_class c ON t.table_name = c.relname AND n.oid = c.relnamespace WHERE t.table_schema = $1 AND t.table_type = 'BASE TABLE' AND c.relkind = 'r' AND t.table_name NOT LIKE 'spatia%' ORDER BY t.table_name".

Definition queryColumns : string :=
  "SELECT c.column_name, format_type(a.atttypid, a.atttypmod) AS formatted_type, c.is_nullable, c.column_default, col_description(cls.oid, c.ordinal_position) as description FROM information_schema.columns c JOIN pg_namespace ns ON c.table_schema = ns.nspname JOIN pg_class cls ON c.table_name = cls.relname AND ns.oid = cls.relnamespace JOIN pg_attribute a ON a.attrelid = cls.oid AND a.attname = c.column_name WHERE c.table_schema = $1 AND c.table_name = $2 AND cls.relkind = 'r' AND a.attnum > 0 AND NOT a.attisdropped ORDER BY c.ordinal_position".

Definition queryConstraints : string :=
  "SELECT c.conname as constraint_name, c.contype as constraint_type, CASE WHEN c.contype = 'p' THEN 'PRIMARY KEY' WHEN c.contype = 'u' THEN 'UNIQUE' WHEN c.contype = 'f' THEN 'FOREIGN KEY' WHEN c.contype = 'c' THEN 'CHECK' ELSE 'OTHER' END as constraint_type_desc, ARRAY_AGG(col.attname ORDER BY u.attposition) filter (where col.attname is not null) as column_names FROM pg_constraint c JOIN pg_namespace n ON n.oid = c.connamespace JOIN pg_class t ON t.oid = c.conrelid LEFT JOIN LATERAL unnest(c.conkey) WITH ORDINALITY AS u(attnum, attposition) ON TRUE LEFT JOIN pg_attribute col ON col.attrelid = t.oid AND col.attnum = u.attnum WHERE n.nspname = $1 AND t.relname = $2 GROUP BY c.conname, c.contype ORDER BY c.contype, c.conname".

Definition queryIndexes : string :=
  "SELECT i.relname as index_name, am.amname as index_type, ix.indisunique as is_unique, ix.indisprimary as is_primary, obj_description(i.oid, 'pg_class') as description, pg_get_indexdef(i.oid) as index_definition, array_agg(CASE WHEN ix.indkey[k.attpos] > 0 THEN a.attname ELSE pg_get_indexdef(i.oid, k.i::int, false) END ORDER BY k.i) as column_names FROM pg_index ix JOIN pg_class i ON i.oid = ix.indexrelid JOIN pg_class t ON t.oid = ix.indrelid JOIN pg_namespace n ON n.oid = t.relnamespace JOIN pg_am am ON i.relam = am.oid LEFT JOIN generate_subscripts(ix.indkey, 1) WITH ORDINALITY AS k(attpos, i) ON TRUE LEFT JOIN pg_attribute a ON a.attrelid = t.oid AND a.attnum = ix.indkey[k.attpos] WHERE n.nspname = $1 AND t.relname = $2 AND ix.indislive GROUP BY i.relname, i.oid, am.amname, ix.indisunique, ix.indisprimary ORDER BY i.relname;".

Definition queryForeignKeys : string :=
  "SELECT c.conname as constraint_name, ARRAY_AGG(col.attname ORDER BY u.attposition) as column_names, nr.nspname as referenced_schema, ref_table.relname as referenced_table, ARRAY_AGG(ref_col.attname ORDER BY u2.attposition) as referenced_columns, obj_description(c.oid, 'pg_constraint') as description FROM pg_constraint c JOIN pg_namespace n ON n.oid = c.connamespace JOIN pg_class t ON t.oid = c.conrelid JOIN pg_class ref_table ON ref_table.oid = c.confrelid JOIN pg_namespace nr ON nr.oid = ref_table.relnamespace LEFT JOIN LATERAL unnest(c.conkey) WITH ORDINALITY AS u(attnum, attposition) ON TRUE LEFT JOIN pg_attribute col ON col.attrelid = t.oid AND col.attnum = u.attnum LEFT JOIN LATERAL unnest(c.confkey) WITH ORDINALITY AS u2(attnum, attposition) ON TRUE LEFT JOIN pg_attribute ref_col ON ref_col.attrelid = c.confrelid AND ref_col.attnum = u2.attnum WHERE n.nspname = $1 AND t.relname = $2 AND c.contype = 'f' GROUP BY c.conname, nr.nspname, ref_table.relname, c.oid ORDER BY c.conname".

(** *** The manager *)

(** What the manager does to its lock, its service and its cache, in
    order. *)
Inductive event : Type :=
  | EvLock                            (* m.mu.Lock() *)
  | EvUnlock                          (* m.mu.Unlock() *)
  | EvExecuteQuery (connID : string) (readOnly : bool)
                   (sql : string) (args : list Value)
  | EvSetCache.                       (* m.cache = newCache *)

(** The interface [databases.Service], as far as the manager uses it:
    [ExecuteQuery] acts on the state [DB] of the implementation. *)
Class Service (DB : Type) : Type :=
  ExecuteQuery : string -> bool -> string -> list Value -> DB ->
                 outcome (result (list Row)) * DB.

Section Manager.
Context {DB : Type} `{!Service DB}.

Record manager : Type := mkManager {
  dbService : DB;
  cache : option DatabaseInfo;      (* *DatabaseInfo, nil is None *)
  history : list event
}.

Definition NewManager (dbService : DB) : manager :=
  mkManager dbService (Some (mkDatabaseInfo [])) [].

(** Methods run on the receiver and may panic. *)
Definition M (A : Type) : Type := manager -> outcome A * manager.

Definition ret {A} (a : A) : M A := fun m => (Returned a, m).

Definition bind {A B} (c : M A) (k : A -> M B) : M B :=
  fun m =>
    match c m with
    | (Returned a, m') => k a m'
    | (Panicked r, m') => (Panicked r, m')
    end.

Definition panic {A} (reason : string) : M A :=
  fun m => (Panicked reason, m).

Definition log (e : event) : M unit :=
  fun m => (Returned tt,
            mkManager (dbService m) (cache m) (history m ++ [e])).

Definition setCache (newCache : DatabaseInfo) : M unit :=
  fun m => (Returned tt,
            mkManager (dbService m) (Some newCache)
                      (history m ++ [EvSetCache])).

(** [defer cleanup] at the head of [body]: [cleanup] runs when [body]
    is left, by return or by panic. *)
Definition defer {A} (cleanup : M unit) (body : M A) : M A :=
  fun m =>
    let '(r, m') := body m in
    (r, snd (cleanup m')).

(** [m.dbService.ExecuteQuery(ctx, connID, readOnly, sql, args...)] *)
Definition call (connID : string) (readOnly : bool) (sql : string)
                (args : list Value) : M (result (list Row)) :=
  fun m =>
    let '(r, db') := ExecuteQuery connID readOnly sql args (dbService m) in
    (r, mkManager db' (cache m)
                  (history m ++ [EvExecuteQuery connID readOnly sql args])).

(** Type assertions without the comma-ok form panic. *)
Definition assertString (v : Value) : M string :=
  match v with
  | VString str => ret str
  | _ => panic "interface conversion: interface {} is not string"
  end.

Definition assertBool (v : Value) : M bool :=
  match v with
  | VBool b => ret b
  | _ => panic "interface conversion: interface {} is not bool"
  end.

Notation "x <- c ;; k" := (bind c (fun x => k))
  (at level 100, c at next level, right associativity).

Definition fetchSchemas (connID : string) : M (result (list Row)) :=
  call connID true querySchemas [].

Definition fetchTables (connID schemaName : string)
  : M (result (list Row)) :=
  call connID true queryTables [VString schemaName].

Definition fetchConstraintsForTable (connID schemaName tableName : string)
  : M (result (list Row)) :=
  call connID true queryConstraints
       [VString schemaName; VString tableName].

(** The constraint kinds attached to the column [colName]: the inner
    loop of [fetchColumns]. *)
Definition columnConstraints (colName : string) (constraints : list Row)
  : list ColumnConstraint :=
  fold_left
    (fun acc constr =>
       let constrCols :=
         match get constr "column_names" with
         | VStrings l => l
         | _ => []
         end in
       let constrTypeDesc :=
         match get constr "constraint_type_desc" with
         | VString d => d
         | _ => ""
         end in
       if stringInSlice colName constrCols
          && negb (String.eqb constrTypeDesc ForeignKeyConstraint)
          && negb (String.eqb constrTypeDesc "")
       then acc ++ [constrTypeDesc]
       else acc)
    constraints [].

Definition columnOfRow (row : Row) (constraints : list Row)
  : M ColumnInfo :=
  colName <- assertString (get row "column_name") ;;
  isNullable <- assertString (get row "is_nullable") ;;
  ret (mkColumnInfo colName
         (dbString (get row "formatted_type"))
         (String.eqb isNullable "YES")
         (dbStringPtr (get row "column_default"))
         (dbString (get row "description"))
         (columnConstraints colName constraints)).

Fixpoint columnsLoop (rows constraints : list Row)
                     (columns : list ColumnInfo) : M (list ColumnInfo) :=
  match rows with
  | [] => ret columns
  | row :: rest =>
      col <- columnOfRow row constraints ;;
      columnsLoop rest constraints (columns ++ [col])
  end.

Definition fetchColumns (connID schemaName tableName : string)
  : M (result (list ColumnInfo)) :=
  r <- call connID true queryColumns
            [VString schemaName; VString tableName] ;;
  match r with
  | Err err => ret (Err err)
  | Ok rows =>
      rc <- fetchConstraintsForTable connID schemaName tableName ;;
      let constraints :=
        match rc with Ok c => c | Err _ => [] end in
      columns <- columnsLoop rows constraints [] ;;
      ret (Ok columns)
  end.

Definition indexOfRow (row : Row) : M IndexInfo :=
  let cols :=
    match get row "column_names" with
    | VAnys colsInterface =>
        map (fun v => match v with VString str => str | _ => "" end)
            colsInterface
    | VStrings colsString => colsString
    | _ => []
    end in
  name <- assertString (get row "index_name") ;;
  type <- assertString (get row "index_type") ;;
  unique <- assertBool (get row "is_unique") ;;
  primary <- assertBool (get row "is_primary") ;;
  ret (mkIndexInfo name type cols unique primary
         (dbString (get row "index_definition"))
         (dbString (get row "description"))).

Fixpoint indexesLoop (rows : list Row) (indexes : list IndexInfo)
  : M (list IndexInfo) :=
  match rows with
  | [] => ret indexes
  | row :: rest =>
      idx <- indexOfRow row ;;
      indexesLoop rest (indexes ++ [idx])
  end.

Definition fetchIndexes (connID schemaName tableName : string)
  : M (result (list IndexInfo)) :=
  r <- call connID true queryIndexes
            [VString schemaName; VString tableName] ;;
  match r with
  | Err err => ret (Err err)
  | Ok rows => indexes <- indexesLoop rows [] ;; ret (Ok indexes)
  end.

Definition foreignKeyOfRow (row : Row) : M ForeignKeyInfo :=
  let cols := interfaceSliceToStringSlice (get row "column_names") in
  let refCols :=
    interfaceSliceToStringSlice (get row "referenced_columns") in
  name <- assertString (get row "constraint_name") ;;
  refSchema <- assertString (get row "referenced_schema") ;;
  refTable <- assertString (get row "referenced_table") ;;
  ret (mkForeignKeyInfo name cols refSchema refTable refCols
         (dbString (get row "description"))).

Fixpoint foreignKeysLoop (rows : list Row)
                         (foreignKeys : list ForeignKeyInfo)
  : M (list ForeignKeyInfo) :=
  match rows with
  | [] => ret foreignKeys
  | row :: rest =>
      fk <- foreignKeyOfRow row ;;
      foreignKeysLoop rest (foreignKeys ++ [fk])
  end.

Definition fetchForeignKeys (connID schemaName tableName : string)
  : M (result (list ForeignKeyInfo)) :=
  r <- call connID true queryForeignKeys
            [VString schemaName; VString tableName] ;;
  match r with
  | Err err => ret (Err err)
  | Ok rows =>
      foreignKeys <- foreignKeysLoop rows [] ;; ret (Ok foreignKeys)
  end.

(** The loop over the tables of one schema (step 3 of [LoadSchema]);
    [acc] is [schemaInfo.Tables]. *)
Fixpoint tablesLoop (connID schemaName : string) (tables : list Row)
                    (acc : list TableInfo) : M (list TableInfo) :=
  match tables with
  | [] => ret acc
  | t :: rest =>
      tableName <- assertString (get t "table_name") ;;
      rc <- fetchColumns connID schemaName tableName ;;
      match rc with
      | Err _ => tablesLoop connID schemaName rest acc   (* continue *)
      | Ok columns =>
          ri <- fetchIndexes connID schemaName tableName ;;
          let indexes := match ri with Ok l => l | Err _ => [] end in
          rf <- fetchForeignKeys connID schemaName tableName ;;
          let foreignKeys := match rf with Ok l => l | Err _ => [] end in
          let tableInfo :=
            mkTableInfo tableName (dbString (get t "description"))
                        (dbInt64 (get t "row_count"))
                        columns indexes foreignKeys in
          tablesLoop connID schemaName rest (acc ++ [tableInfo])
      end
  end.

(** The loop over the schemas (step 2 of [LoadSchema]); [acc] is
    [newCache.Schemas]. *)
Fixpoint schemasLoop (connID : string) (schemas : list Row)
                     (acc : list SchemaInfo) : M (list SchemaInfo) :=
  match schemas with
  | [] => ret acc
  | s :: rest =>
      name <- assertString (get s "schema_name") ;;
      rt <- fetchTables connID name ;;
      match rt with
      | Err _ => schemasLoop connID rest acc             (* continue *)
      | Ok tables =>
          ts <- tablesLoop connID name tables [] ;;
          let schemaInfo :=
            mkSchemaInfo name (dbString (get s "description")) ts in
          schemasLoop connID rest (acc ++ [schemaInfo])
      end
  end.

Definition LoadSchema (connID : string) : M (option error) :=
  _ <- log EvLock ;;
  defer (log EvUnlock)
    (r <- fetchSchemas connID ;;
     match r with
     | Err err => ret (Some (fmt_Errorf "获取 Schema 列表失败" err))
     | Ok schemas =>
         if (List.length schemas =? 0)%nat then
           _ <- setCache (mkDatabaseInfo []) ;;
           ret None
         else
           newSchemas <- schemasLoop connID schemas [] ;;
           _ <- setCache (mkDatabaseInfo newSchemas) ;;
           ret None
     end).

(** The lookups hold the read lock while they run and change
    nothing; a pointer into the cache is returned as the value it
    points to. *)
Definition GetDatabaseInfo (m : manager) : option DatabaseInfo * bool :=
  match cache m with
  | None => (None, false)
  | Some c =>
      if (List.length (Schemas c) =? 0)%nat then (None, false)
      else (Some c, true)
  end.

Definition GetSchemaInfo (schemaName : string) (m : manager)
  : option SchemaInfo * bool :=
  match cache m with
  | None => (None, false)
  | Some c =>
      match List.find (fun s => String.eqb (SchemaName s) schemaName)
                      (Schemas c) with
      | Some s => (Some s, true)
      | None => (None, false)
      end
  end.

Definition GetTableInfo (schemaName tableName : string) (m : manager)
  : option TableInfo * bool :=
  match GetSchemaInfo schemaName m with
  | (Some schemaInfo, true) =>
      match List.find (fun t => String.eqb (TableName t) tableName)
                      (Tables schemaInfo) with
      | Some t => (Some t, true)
      | None => (None, false)
      end
  | _ => (None, false)
  end.

End Manager.

Arguments manager DB : clear implicits.
Arguments M DB A : clear implicits.

End schemas.

(** ** Package [databases], continued: commands without result rows *)

Module nonquery.
Import pgx.

(** [pgconn.CommandTag], which the executor only logs. *)
Record CommandTag : Type := mkCommandTag {
  tag : string;
  RowsAffected : Z
}.

(** A connection, with the answer of [tx.Exec]. *)
Record Conn : Type := mkConn {
  base : pgx.Conn;
  Exec : string -> list Value -> result CommandTag
}.

Inductive event : Type :=
  | EvAcquire
  | EvBeginTx (mode : AccessMode)
  | EvExec (sql : string) (args : list Value)
  | EvRollback
  | EvCommit
  | EvRelease.

(** [executeNonQueryInternal]: the error returned (nil is [None]) and
    the calls made on the driver. *)
Definition executeNonQueryInternal (conn : Conn) (readOnly : bool)
                                   (sql : string) (args : list Value)
  : option error * list event :=
  match Acquire (base conn) with
  | Some err => (Some (fmt_Errorf "获取数据库连接失败" err), [EvAcquire])
  | None =>
      let mode := if readOnly then ReadOnly else ReadWrite in
      match BeginTx (base conn) with
      | Some err =>
          (Some (fmt_Errorf "开始数据库事务失败" err),
           [EvAcquire; EvBeginTx mode; EvRelease])
      | None =>
          let pre := [EvAcquire; EvBeginTx mode; EvExec sql args] in
          match Exec conn sql args with
          | Err err =>
              (Some (fmt_Errorf "数据库命令执行错误" err),
               pre ++ [EvRollback; EvRollback; EvRelease])
          | Ok commandTag =>
              match Commit (base conn) with
              | Some err =>
                  (Some (fmt_Errorf "提交数据库事务失败" err),
                   pre ++ [EvCommit; EvRollback; EvRelease])
              | None => (None, pre ++ [EvCommit; EvRollback; EvRelease])
              end
          end
      end
  end.

(** [ExecuteNonQuery]: fetch (or build) the pool, then run the command
    on a connection of it. *)
Definition ExecuteNonQuery (drv : pgxpool.Driver)
                           (connect : pgxpool.Pool -> Conn)
                           (connID : string) (readOnly : bool)
                           (sql : string) (args : list Value)
                           (s : databases.pgxService)
  : option error * list event * databases.pgxService :=
  match databases.GetPool drv connID s with
  | (Err err, s') =>
      (Some (fmt_Errorf ("获取连接池失败 (connID: " +:+ connID +:+ ")") err),
       [], s')
  | (Ok pool, s') =>
      (executeNonQueryInternal (connect pool) readOnly sql args, s')
  end.

End nonquery.

(** ** Vocabulary of the statements *)

(** A scripted implementation of [Service]: the database answers each
    query by a fixed function of the statement and its arguments. *)
Definition Oracle : Type := string -> list Value -> result (list Row).

#[export] Instance Oracle_Service : schemas.Service Oracle :=
  fun _ _ sql args db => (Returned (db sql args), db).

(** [pgxService] implements the interface, given the driver's answers. *)
Definition pgxService_Service (drv : pgxpool.Driver)
                              (connect : pgxpool.Pool -> pgx.Conn)
  : schemas.Service databases.pgxService :=
  fun connID readOnly sql args s =>
    let '(r, _, s') :=
      databases.ExecuteQuery drv connect connID readOnly sql args s in
    (r, s').

Module registry.
Import databases.

(** The operations of the service on the registry and the pools. *)
Inductive op : Type :=
  | Register (connString : string)
  | Disconnect (connID : string)
  | Get (drv : pgxpool.Driver) (connID : string)
  | Shutdown.

Definition step (s : pgxService) (o : op) : pgxService :=
  match o with
  | Register connString => snd (RegisterConnection connString s)
  | Disconnect connID => snd (DisconnectConnection connID s)
  | Get drv connID => snd (GetPool drv connID s)
  | Shutdown => snd (CloseAll s)
  end.

Definition run (ops : list op) (s : pgxService) : pgxService :=
  fold_left step ops s.


(** What holds of them: [connMap] is inverted by [reverseMap], and
    [reverseMap] sends a connection string to the identity resolved
    from it. *)
Definition consistent (s : pgxService) : Prop :=
  (forall id cs, connMap s !! id = Some cs -> reverseMap s !! cs = Some id)
  /\ (forall cs id, reverseMap s !! cs = Some id ->
                    utils.ConnectionStringToUUID cs = Ok id).

(** Every pool, open or closed, was allocated before. *)
Definition pools_allocated (s : pgxService) : Prop :=
  (forall id p, pools s !! id = Some p -> pgxpool.ptr p < allocated s)
  /\ (forall n, n ∈ closed s -> n < allocated s).

(** A pool that no entry of the pool map and no closed pool aliases. *)
Definition fresh (p : pgxpool.Pool) (s : pgxService) : Prop :=
  (forall id q, pools s !! id = Some q -> pgxpool.ptr q <> pgxpool.ptr p)
  /\ pgxpool.ptr p ∉ closed s.

End registry.

(** Strings made of white space only (the empty string included). *)
Inductive whitespace_only : string -> Prop :=
  | ws_empty : whitespace_only ""
  | ws_rune r s :
      In r strings.space_runes -> whitespace_only s ->
      whitespace_only (r +:+ s).

(** *** Concrete inputs used to run the definitions *)

(** The defaults of [config.LoadConfig] (durations in nanoseconds). *)
Definition defaultConfig : config.Config :=
  config.mkConfig 3600000000000 1800000000000 10 2.

(** A driver that accepts every connection string. *)
Definition acceptingDriver : pgxpool.Driver :=
  pgxpool.mkDriver
    (fun cs => Ok (pgxpool.mkConfig cs 4 0 3600000000000 1800000000000))
    (fun _ => None).

Definition emptyService : databases.pgxService :=
  databases.NewPgxService defaultConfig.

(** The value of the last column called [name] in a row of columns. *)
Fixpoint lastColumn (name : string) (cols : list (string * Value))
  : option Value :=
  match cols with
  | [] => None
  | (k, v) :: rest =>
      match lastColumn name rest with
      | Some v' => Some v'
      | None => if String.eqb k name then Some v else None
      end
  end.

(** A connection on which every call succeeds and every query returns
    [rows]. *)
Definition answering (rows : pgx.Rows) : pgx.Conn :=
  pgx.mkConn None None (fun _ _ => Ok rows) None.

(** A database with one schema [public] holding one table [t] with the
    columns [id bigint not null] and [name text], a primary key on [id]
    and no foreign key. *)
Definition row (entries : list (string * Value)) : Row := list_to_map entries.

Definition exampleDB : Oracle :=
  fun sql args =>
    if String.eqb sql schemas.querySchemas then
      Ok [row [("schema_name", VString "public"); ("description", VNil)]]
    else if String.eqb sql schemas.queryTables then
      Ok [row [("table_name", VString "t"); ("description", VNil);
               ("row_count", VInt64 0)]]
    else if String.eqb sql schemas.queryColumns then
      Ok [row [("column_name", VString "id");
               ("formatted_type", VString "bigint");
               ("is_nullable", VString "NO");
               ("column_default", VNil); ("description", VNil)];
          row [("column_name", VString "name");
               ("formatted_type", VString "text");
               ("is_nullable", VString "YES");
               ("column_default", VNil); ("description", VNil)]]
    else if String.eqb sql schemas.queryConstraints then
      Ok [row [("constraint_name", VString "t_pkey");
               ("constraint_type", VString "p");
               ("constraint_type_desc", VString "PRIMARY KEY");
               ("column_names", VStrings ["id"])]]
    else if String.eqb sql schemas.queryIndexes then
      Ok [row [("index_name", VString "t_pkey");
               ("index_type", VString "btree");
               ("is_unique", VBool true); ("is_primary", VBool true);
               ("description", VNil);
               ("index_definition",
                VString "CREATE UNIQUE INDEX t_pkey ON public.t USING btree (id)");
               ("column_names", VAnys [VString "id"])]]
    else Ok [].

(** The same database, on which the statement [sql] fails. *)
Definition failing (sql : string) (db : Oracle) : Oracle :=
  fun sql' args =>
    if String.eqb sql' sql then Err (external_error "57014")
    else db sql' args.

(** A database without any schema the crawl would list. *)
Definition emptyDB : Oracle := fun _ _ => Ok [].

(** Managers on these databases: fresh ones, and ones that loaded
    [exampleDB] before the database changed. *)
Definition publicRow : Row :=
  row [("schema_name", VString "public"); ("description", VNil)].

Definition schemasFailing : schemas.manager Oracle :=
  schemas.NewManager (failing schemas.querySchemas exampleDB).

Definition tablesFailing : schemas.manager Oracle :=
  schemas.NewManager (failing schemas.queryTables exampleDB).

Definition loaded : schemas.manager Oracle :=
  snd (schemas.LoadSchema "c" (schemas.NewManager exampleDB)).

Definition loadedThenFailing : schemas.manager Oracle :=
  schemas.mkManager (failing schemas.querySchemas exampleDB)
                    (schemas.cache loaded) (schemas.history loaded).

Definition loadedThenEmpty : schemas.manager Oracle :=
  schemas.mkManager emptyDB (schemas.cache loaded) (schemas.history loaded).

(** The number of calls of the service made while the write lock of the
    cache is held ([locked] tells whether it is held at the start). *)
Fixpoint queries_under_lock (locked : bool) (h : list schemas.event) : nat :=
  match h with
  | [] => 0
  | schemas.EvLock :: h' => queries_under_lock true h'
  | schemas.EvUnlock :: h' => queries_under_lock false h'
  | schemas.EvExecuteQuery _ _ _ _ :: h' =>
      (if locked then 1 else 0) + queries_under_lock locked h'
  | schemas.EvSetCache :: h' => queries_under_lock locked h'
  end.

Definition is_query (e : schemas.event) : Prop :=
  match e with schemas.EvExecuteQuery _ _ _ _ => True | _ => False end.

(** A service on which one connection string is registered, and the
    rows of a query with two columns. *)
Definition registered : databases.pgxService :=
  snd (databases.RegisterConnection "postgres://u:p@host:5432/db"
                                    emptyService).

Definition twoColumns : pgx.Rows :=
  pgx.mkRows ["id"; "name"]
             [Ok [VInt64 1; VString "a"]; Ok [VInt64 2; VNil]] None.

(** What a returned row holds, given the values of its columns. *)
Definition row_of (fds : list string) (row : Row) (values : list Value)
  : Prop :=
  List.length fds <= List.length values
  /\ forall name, row !! name = lastColumn name (zip fds values).

(** A computation of the manager is a crawl step when it leaves the
    cache alone and only adds calls of the service to the history. *)
Definition crawls {DB} (m m' : schemas.manager DB) : Prop :=
  schemas.cache m' = schemas.cache m
  /\ exists evs,
       schemas.history m' = schemas.history m ++ evs /\ Forall is_query evs.

Definition crawl_step DB {A} (c : schemas.M DB A) : Prop :=
  forall m, crawls m (snd (c m)).

(** The identity of [registered], and that service after a pool was
    built for it. *)
Definition registeredID : string := "6bbce347-9ab2-5c4d-9999-4c0228e32de8".

Definition pooled : databases.pgxService :=
  snd (databases.GetPool acceptingDriver registeredID registered).

(** Every live pool is open, belongs to a registered identity and is
    shared with no other identity. *)
Definition pools_sound (s : databases.pgxService) : Prop :=
  (forall id p, databases.pools s !! id = Some p ->
                is_Some (databases.connMap s !! id)
                /\ (pgxpool.ptr p ∉ databases.closed s)
                /\ pgxpool.ptr p < databases.allocated s)
  /\ (forall id1 id2 p1 p2,
        databases.pools s !! id1 = Some p1 ->
        databases.pools s !! id2 = Some p2 ->
        pgxpool.ptr p1 = pgxpool.ptr p2 -> id1 = id2)
  /\ (forall n, n ∈ databases.closed s -> n < databases.allocated s).

(** The two schemes [normalizeConnectionString] knows. *)
Definition has_scheme (cs : string) : Prop :=
  strings.HasPrefix cs "postgresql://" = true
  \/ strings.HasPrefix cs "postgres://" = true.

(** The driver's contract on rows: [rows.Values()] returns one value per
    field description. *)
Definition well_formed_rows (rows : pgx.Rows) : Prop :=
  Forall (fun r => match r with
                   | Ok values =>
                       List.length values
                       = List.length (pgx.FieldDescriptions rows)
                   | Err _ => True
                   end)
         (pgx.Values rows).

(** The access mode asked for by the flag [readOnly]. *)
Definition mode_of (readOnly : bool) : pgx.AccessMode :=
  if readOnly then pgx.ReadOnly else pgx.ReadWrite.

(** A connection that answers every command with success. *)
Definition obeying : nonquery.Conn :=
  nonquery.mkConn (answering twoColumns)
                  (fun _ _ => Ok (nonquery.mkCommandTag "INSERT 0 1" 1)).

(** A read-only call of the service on the connection [connID]. *)
Definition read_only_on (connID : string) (e : schemas.event) : Prop :=
  match e with
  | schemas.EvExecuteQuery c readOnly _ _ => c = connID /\ readOnly = true
  | _ => False
  end.

(** A computation of the manager that uses the service only through
    read-only queries on [connID]: it keeps every property [I] of the
    service that such queries keep, leaves the cache alone and adds only
    such queries to the history. *)
Definition service_step {DB} `{!schemas.Service DB} (connID : string)
    (I : DB -> Prop) {A} (c : schemas.M DB A) : Prop :=
  forall m,
    I (schemas.dbService m) ->
    I (schemas.dbService (snd (c m)))
    /\ schemas.cache (snd (c m)) = schemas.cache m
    /\ exists evs,
         schemas.history (snd (c m)) = schemas.history m ++ evs
         /\ Forall (read_only_on connID) evs.

(** The name a row of the catalog answer gives under [key]. *)
Definition name_of (key : string) (r : Row) : string :=
  schemas.dbString (schemas.get r key).

(** A manager on [exampleDB] whose constraint query fails. *)
Definition constraintsFailing : schemas.manager Oracle :=
  schemas.NewManager (failing schemas.queryConstraints exampleDB).

(** ** Quoting of identifiers ([internal/utils], SQL helpers)

    [strings.ReplaceAll] replaces the matches of [old] found by a scan
    from the left, a match being skipped over once replaced.  The two
    call sites modelled pass a constant, nonempty [old]; for an empty
    one Go inserts [new] around every rune, which is not modelled
    ([ReplaceAll] is then the identity here and no statement uses that
    case). *)

Module quoting.

Definition dquote : ascii := "034"%char.

Fixpoint replace (skip : nat) (s old new : string) : string :=
  match s with
  | EmptyString => EmptyString
  | String c s' =>
      match skip with
      | S k => replace k s' old new
      | O =>
          if strings.HasPrefix s old
          then new +:+ replace (String.length old - 1) s' old new
          else String c (replace 0 s' old new)
      end
  end.

Definition ReplaceAll (s old new : string) : string :=
  match old with
  | EmptyString => s
  | String _ _ => replace 0 s old new
  end.

(** [fmt.Sprintf] of the escaped identifier between two double
    quotes. *)
Definition QuoteIdentifier (identifier : string) : string :=
  let escapedIdentifier :=
    ReplaceAll identifier (String dquote EmptyString)
               (String dquote (String dquote EmptyString)) in
  String dquote EmptyString +:+ escapedIdentifier
  +:+ String dquote EmptyString.

(** How PostgreSQL reads a quoted identifier at the head of a text:
    up to the first double quote that is not doubled, a doubled one
    standing for one double quote.  The result is the identifier and
    the text after it. *)
Fixpoint read_quoted (s : string) : option (string * string) :=
  match s with
  | EmptyString => None
  | String c s' =>
      if Ascii.eqb c dquote then
        match s' with
        | EmptyString => Some (EmptyString, EmptyString)
        | String c' s'' =>
            if Ascii.eqb c' dquote
            then (fun p => (String dquote (fst p), snd p))
                   <$> read_quoted s''
            else Some (EmptyString, s')
        end
      else (fun p => (String c (fst p), snd p)) <$> read_quoted s'
  end.

Definition read_identifier (s : string) : option (string * string) :=
  match s with
  | EmptyString => None
  | String c s' => if Ascii.eqb c dquote then read_quoted s' else None
  end.

End quoting.

(** * Properties *)

(** ** The registry *)

Section RegistryFacts.
Import databases registry.

Lemma RegisterConnection_cases connString s :
  (exists e, RegisterConnection connString s = (Returned e, s))
  \/ (exists n id,
        normalizeConnectionString connString = Ok n
        /\ reverseMap s !! n = None
        /\ utils.ConnectionStringToUUID n = Ok id
        /\ snd (RegisterConnection connString s)
           = mkService (config s) (<[id := n]> (connMap s))
                       (<[n := id]> (reverseMap s))
                       (pools s) (allocated s) (closed s)
        /\ fst (RegisterConnection connString s)
           = if (String.length n <? 20)%nat
             then Panicked "slice bounds out of range"
             else Returned (id, None)).
Proof.
  unfold RegisterConnection.
  destruct (normalizeConnectionString connString) as [n|e]; [|eauto].
  destruct (reverseMap s !! n) as [id|] eqn:Hrev; [eauto|].
  destruct (utils.ConnectionStringToUUID n) as [id|e] eqn:Hid; [|eauto].
  right. exists n, id. repeat split; try done.
  - by destruct (String.length n <? 20)%nat.
  - by destruct (String.length n <? 20)%nat.
Qed.

Lemma consistent_Register connString s :
  consistent s -> consistent (snd (RegisterConnection connString s)).
Proof.
  intros [Hfwd Hres].
  destruct (RegisterConnection_cases connString s)
    as [[e ->]|(n & id & _ & Hnone & Hid & -> & _)]; [done|].
  split; simpl.
  - intros id' cs. rewrite lookup_insert.
    case_decide as Hd; [intros [= <-]; subst; by rewrite lookup_insert_eq|].
    intros Hc. pose proof (Hfwd _ _ Hc) as Hr.
    rewrite lookup_insert_ne; [done|]. intros <-. congruence.
  - intros cs id'. rewrite lookup_insert.
    case_decide; [intros [= <-]; by subst|]. apply Hres.
Qed.

Lemma consistent_Disconnect connID s :
  consistent s -> consistent (snd (DisconnectConnection connID s)).
Proof.
  intros [Hfwd Hres]. unfold DisconnectConnection.
  destruct (connMap s !! connID) as [cs0|] eqn:Hc0; [|done].
  assert (forall id cs, delete connID (connMap s) !! id = Some cs ->
                        delete cs0 (reverseMap s) !! cs = Some id) as Hfwd'.
  { intros id cs. rewrite lookup_delete. case_decide; [done|].
    intros Hc. rewrite lookup_delete_ne; [by apply Hfwd|].
    intros <-. apply Hfwd in Hc, Hc0. congruence. }
  assert (forall cs id, delete cs0 (reverseMap s) !! cs = Some id ->
                        utils.ConnectionStringToUUID cs = Ok id) as Hres'.
  { intros cs id. rewrite lookup_delete. case_decide; [done|]. apply Hres. }
  by destruct (pools s !! connID).
Qed.

Lemma GetPool_registry drv connID s :
  connMap (snd (GetPool drv connID s)) = connMap s
  /\ reverseMap (snd (GetPool drv connID s)) = reverseMap s.
Proof.
  unfold GetPool.
  destruct (connMap s !! connID); [|done].
  destruct (pools s !! connID); [done|].
  destruct (pgxpool.ParseConfig drv _); [|done].
  by destruct (pgxpool.NewWithConfig drv _).
Qed.

Lemma consistent_step s o : consistent s -> consistent (step s o).
Proof.
  destruct o as [cs|id|drv id|]; simpl.
  - apply consistent_Register.
  - apply consistent_Disconnect.
  - destruct (GetPool_registry drv id s) as [Hc Hr].
    unfold consistent. by rewrite Hc, Hr.
  - intros _. split; intros ? ?; simpl; by rewrite lookup_empty.
Qed.

Lemma consistent_run ops s : consistent s -> consistent (run ops s).
Proof.
  revert s. induction ops as [|o ops IH]; intros s Hs; [done|].
  simpl. apply IH. by apply consistent_step.
Qed.

Lemma consistent_New cfg : consistent (NewPgxService cfg).
Proof. split; intros ? ?; simpl; by rewrite lookup_empty. Qed.

End RegistryFacts.

Section PoolFacts.
Import databases registry.

Lemma closed_CloseAll s n :
  n ∈ closed (snd (CloseAll s))
  <-> n ∈ closed s \/ exists id p, pools s !! id = Some p /\ pgxpool.ptr p = n.
Proof.
  unfold CloseAll; simpl.
  apply (map_fold_weak_ind
           (fun r (m : gmap string pgxpool.Pool) =>
              n ∈ r <-> n ∈ closed s
                        \/ exists id p, m !! id = Some p /\ pgxpool.ptr p = n)).
  - split; [auto|]. intros [?|(id & p & Hp & _)]; [done|].
    by rewrite lookup_empty in Hp.
  - intros i x m r Hi IH. rewrite elem_of_union, elem_of_singleton, IH.
    split.
    + intros [->|[?|(id & p & Hp & <-)]]; [right|by left|right].
      * exists i, x. by rewrite lookup_insert_eq.
      * exists id, p. split; [|done].
        rewrite lookup_insert_ne; [done|]. intros <-. congruence.
    + intros [?|(id & p & Hp & <-)]; [by right; left|].
      revert Hp. rewrite lookup_insert. case_decide.
      * intros [= <-]. by left.
      * intros Hp. right; right. eauto.
Qed.

Lemma RegisterConnection_pools connString s :
  pools (snd (RegisterConnection connString s)) = pools s
  /\ allocated (snd (RegisterConnection connString s)) = allocated s
  /\ closed (snd (RegisterConnection connString s)) = closed s.
Proof.
  destruct (RegisterConnection_cases connString s)
    as [[e ->]|(n & id & _ & _ & _ & -> & _)]; done.
Qed.

Lemma pools_allocated_step s o :
  pools_allocated s -> pools_allocated (step s o).
Proof.
  intros [Hp Hc]. destruct o as [cs|id|drv id|]; cbn [step].
  - destruct (RegisterConnection_pools cs s) as (Hp' & Ha' & Hc').
    unfold pools_allocated. by rewrite Hp', Ha', Hc'.
  - unfold DisconnectConnection.
    destruct (connMap s !! id); [|done].
    destruct (pools s !! id) as [pool|] eqn:Hpool; [|done].
    split; simpl.
    + intros id' p. rewrite lookup_delete. case_decide; [done|]. apply Hp.
    + intros n. rewrite elem_of_union, elem_of_singleton.
      intros [->|?]; eauto.
  - unfold GetPool.
    destruct (connMap s !! id); [|done].
    destruct (pools s !! id); [done|].
    destruct (pgxpool.ParseConfig drv _); [|done].
    destruct (pgxpool.NewWithConfig drv _); [done|].
    split; simpl.
    + intros id' p. rewrite lookup_insert. case_decide.
      * intros [= <-]. simpl. lia.
      * intros Hl. apply Hp in Hl. lia.
    + intros n Hn. apply Hc in Hn. lia.
  - split.
    + intros id p. simpl. by rewrite lookup_empty.
    + intros n. rewrite closed_CloseAll. simpl.
      intros [?|(id & p & Hl & <-)]; eauto.
Qed.

Lemma pools_allocated_run ops s :
  pools_allocated s -> pools_allocated (run ops s).
Proof.
  revert s. induction ops as [|o ops IH]; intros s Hs; [done|].
  simpl. apply IH. by apply pools_allocated_step.
Qed.

Lemma pools_allocated_New cfg : pools_allocated (NewPgxService cfg).
Proof.
  split; simpl; [intros ? ?; by rewrite lookup_empty|set_solver].
Qed.

(** An identity returned without an error is the one resolved from the
    normalised connection string. *)
Lemma RegisterConnection_resolves connString s id :
  consistent s ->
  fst (RegisterConnection connString s) = Returned (id, None) ->
  exists n, normalizeConnectionString connString = Ok n
            /\ utils.ConnectionStringToUUID n = Ok id.
Proof.
  intros [_ Hres]. unfold RegisterConnection.
  destruct (normalizeConnectionString connString) as [n|e]; [|done].
  destruct (reverseMap s !! n) as [id'|] eqn:Hrev.
  - intros [= <-]. eauto.
  - destruct (utils.ConnectionStringToUUID n) as [id'|e] eqn:Hid; [|done].
    destruct (String.length n <? 20)%nat; [done|].
    intros [= <-]. eauto.
Qed.

End PoolFacts.

(** ** Claims about the registry and the pools *)

Section RegistryClaims.
Import databases registry.

(** C1, as stated, fails: after [RegisterConnection] has returned an
    identity and a pool was built for it, [CloseAll] followed by
    [GetPool] with that identity fails with the unknown-identity error,
    although the driver would accept the connection string. *)
Lemma CloseAll_GetPool_unknown_identity :
  let cs := "postgres://u:p@host:5432/db" in
  let id := "6bbce347-9ab2-5c4d-9999-4c0228e32de8" in
  let s1 := snd (RegisterConnection cs emptyService) in
  let s2 := snd (GetPool acceptingDriver id s1) in
  fst (RegisterConnection cs emptyService) = Returned (id, None)
  /\ (exists pool, fst (GetPool acceptingDriver id s1) = Ok pool)
  /\ fst (GetPool acceptingDriver id (snd (CloseAll s2)))
     = Err (errors_New ("未知的 connID: " +:+ id)).
Proof. vm_compute. eauto. Qed.

Lemma CloseAll_clears s :
  connMap (snd (CloseAll s)) = ∅ /\ reverseMap (snd (CloseAll s)) = ∅
  /\ pools (snd (CloseAll s)) = ∅
  /\ allocated (snd (CloseAll s)) = allocated s.
Proof. done. Qed.

(** C1, amended: from any state the service can reach, once
    [RegisterConnection] has returned an identity for a connection
    string, whatever happens next, [CloseAll] followed by [GetPool] with
    that identity fails with the unknown-identity error and changes
    nothing, because [CloseAll] also empties the registry.  Registering
    the same connection string again puts the same identity back (the
    call returns it, or panics in its last log line when the normalised
    string is shorter than 20 bytes), and then [GetPool] builds a fresh
    pool for it, provided the driver accepts the connection string. *)
Theorem CloseAll_then_GetPool
    cfg ops connString id ops' drv :
  let s := run ops (NewPgxService cfg) in
  fst (RegisterConnection connString s) = Returned (id, None) ->
  let s2 :=
    snd (CloseAll (run ops' (snd (RegisterConnection connString s)))) in
  let s3 := snd (RegisterConnection connString s2) in
  GetPool drv id s2 = (Err (errors_New ("未知的 connID: " +:+ id)), s2)
  /\ exists n,
       normalizeConnectionString connString = Ok n
       /\ connMap s3 !! id = Some n
       /\ (fst (RegisterConnection connString s2) = Returned (id, None)
           \/ fst (RegisterConnection connString s2)
              = Panicked "slice bounds out of range")
       /\ forall c,
            pgxpool.ParseConfig drv n = Ok c ->
            pgxpool.NewWithConfig drv
              (pgxpool.mkConfig (pgxpool.ConnString c)
                 (int32 (config.DBMaxOpenConns cfg))
                 (int32 (config.DBMinOpenConns cfg))
                 (config.DBConnMaxLifetime cfg)
                 (config.DBConnMaxIdleTime cfg)) = None ->
            exists pool,
              fst (GetPool drv id s3) = Ok pool
              /\ fresh pool s3
              /\ pools (snd (GetPool drv id s3)) !! id = Some pool.
Proof.
  intros s Hreg s2 s3.
  assert (consistent s) as Hs
    by (apply consistent_run, consistent_New).
  destruct (RegisterConnection_resolves _ _ _ Hs Hreg) as (n & Hn & Hid).
  set (s1 := run ops' (snd (RegisterConnection connString s))) in *.
  assert (pools_allocated s1) as Hal.
  { apply pools_allocated_run.
    apply (pools_allocated_step s (Register connString)).
    apply pools_allocated_run, pools_allocated_New. }
  assert (config s1 = cfg) as Hcfg.
  { assert (forall l t, config (run l t) = config t) as Hrun.
    { induction l as [|o l IH]; intros t; [done|]. simpl. rewrite IH.
      destruct o as [cs|i|d i|]; simpl; [| | |done].
      - destruct (RegisterConnection_cases cs t)
          as [[e ->]|(? & ? & _ & _ & _ & -> & _)]; done.
      - unfold DisconnectConnection. destruct (connMap t !! i); [|done].
        by destruct (pools t !! i).
      - unfold GetPool. destruct (connMap t !! i); [|done].
        destruct (pools t !! i); [done|].
        destruct (pgxpool.ParseConfig d _); [|done].
        by destruct (pgxpool.NewWithConfig d _). }
    unfold s1. rewrite Hrun.
    destruct (RegisterConnection_cases connString s)
      as [[e ->]|(? & ? & _ & _ & _ & -> & _)]; simpl; apply (Hrun ops). }
  split; [done|].
  exists n. 
  destruct (RegisterConnection_cases connString s2)
    as [[e He]|(n' & id' & Hn' & _ & Hid' & Hst & Hout)].
  { exfalso. revert He. unfold RegisterConnection. rewrite Hn. simpl.
    rewrite lookup_empty, Hid.
    destruct (String.length n <? 20)%nat; intros [= _ Hc];
      apply (f_equal (fun m => m !! id)) in Hc;
      by rewrite lookup_insert_eq, lookup_empty in Hc. }
  assert (n' = n) as -> by congruence.
  assert (id' = id) as -> by congruence.
  split; [done|]. fold s3 in Hst. rewrite Hst. simpl.
  split; [by rewrite lookup_insert_eq|].
  split; [rewrite Hout; destruct (String.length n <? 20)%nat; auto|].
  intros c Hc Hnew. unfold GetPool. simpl.
  rewrite lookup_insert_eq, lookup_empty, Hc. rewrite Hcfg, Hnew. simpl.
  eexists. split; [done|]. split; [|by rewrite lookup_insert_eq].
  split; simpl; [intros ? ?; by rewrite lookup_empty|].
  intros Hin.
  apply (pools_allocated_step s1 Shutdown) in Hal. apply Hal in Hin.
  simpl in Hin. lia.
Qed.



Lemma length_append (s t : string) :
  String.length (s +:+ t) = String.length s + String.length t.
Proof. induction s as [|c s IH]; simpl; [done|]. by rewrite IH. Qed.

Lemma leading_space_rune r s :
  In r strings.space_runes ->
  exists k, strings.leading_space (r +:+ s) = Some (S k)
            /\ strings.drop (S k) (r +:+ s) = s
            /\ String.length r = S k.
Proof.
  intros Hr. vm_compute in Hr.
  repeat (destruct Hr as [<-|Hr]; [eexists; vm_compute; done|]).
  destruct Hr.
Qed.

Lemma TrimLeft_whitespace_only s :
  whitespace_only s ->
  forall fuel, String.length s <= fuel -> strings.TrimLeft_fuel fuel s = "".
Proof.
  induction 1 as [|r s Hr Hs IH]; intros fuel Hfuel.
  - by destruct fuel.
  - destruct (leading_space_rune r s Hr) as (k & Hlead & Hdrop & Hlen).
    rewrite length_append, Hlen in Hfuel.
    destruct fuel as [|fuel]; [lia|].
    cbn [strings.TrimLeft_fuel]. rewrite Hlead, Hdrop. apply IH. lia.
Qed.

Lemma TrimSpace_whitespace_only s :
  whitespace_only s -> strings.TrimSpace s = "".
Proof.
  intros Hs. unfold strings.TrimSpace.
  by rewrite (TrimLeft_whitespace_only s Hs).
Qed.

(** C10: [RegisterConnection] called with an empty or white-space-only
    connection string returns an error, creates no identity and leaves
    the receiver, both registry maps included, as it was. *)
Theorem RegisterConnection_blank connString s :
  whitespace_only connString ->
  RegisterConnection connString s
  = (Returned ("", Some (fmt_Errorf "无效的连接字符串格式"
                           (errors_New "连接字符串不能为空"))), s).
Proof.
  intros Hws. unfold RegisterConnection, normalizeConnectionString.
  by rewrite (TrimSpace_whitespace_only _ Hws).
Qed.

Lemma whitespace_only_example :
  whitespace_only (" " +:+ strings.bytes [9] +:+ strings.bytes [226; 128; 131]
                   +:+ strings.bytes [10] +:+ "").
Proof.
  repeat (apply ws_rune; [vm_compute; tauto|]). apply ws_empty.
Qed.

Lemma RegisterConnection_blank_witness :
  let blank := " " +:+ strings.bytes [9] +:+ strings.bytes [226; 128; 131]
               +:+ strings.bytes [10] +:+ "" in
  whitespace_only blank
  /\ RegisterConnection blank emptyService
     = (Returned ("", Some (fmt_Errorf "无效的连接字符串格式"
                              (errors_New "连接字符串不能为空"))),
        emptyService).
Proof.
  split; [exact whitespace_only_example|].
  apply (RegisterConnection_blank _ emptyService whitespace_only_example).
Defined.

Lemma CloseAll_then_GetPool_witness :
  let cs := "postgres://u:p@host:5432/db" in
  let id := "6bbce347-9ab2-5c4d-9999-4c0228e32de8" in
  let s := run [] (NewPgxService defaultConfig) in
  let s2 :=
    snd (CloseAll (run [Get acceptingDriver id]
                       (snd (RegisterConnection cs s)))) in
  fst (RegisterConnection cs s) = Returned (id, None)
  /\ GetPool acceptingDriver id s2
     = (Err (errors_New ("未知的 connID: " +:+ id)), s2).
Proof.
  split; [vm_compute; reflexivity|].
  refine (proj1 (CloseAll_then_GetPool defaultConfig []
                   "postgres://u:p@host:5432/db"
                   "6bbce347-9ab2-5c4d-9999-4c0228e32de8"
                   [Get acceptingDriver "6bbce347-9ab2-5c4d-9999-4c0228e32de8"]
                   acceptingDriver _)).
  vm_compute; reflexivity.
Defined.

(** The hashed string is built from the user name, the host and the
    path only: the password field of the parsed URL is never read. *)
Lemma canonicalString_ignores_password (u : url.URL) name pw1 pw2 set1 set2 :
  let with_user ui :=
    url.mkURL (url.Scheme u) (url.Opaque u) (Some ui) (url.Host u)
              (url.Path u) (url.OmitHost u) (url.ForceQuery u)
              (url.RawQuery u) (url.Fragment u) in
  utils.canonicalString (with_user (url.mkUserinfo name pw1 set1))
  = utils.canonicalString (with_user (url.mkUserinfo name pw2 set2)).
Proof. reflexivity. Qed.

(** C4 at the failing input: two connection strings with the documented
    [postgres://] scheme that differ only in the password resolve to
    different identities.  The prefix test of [ConnectionStringToUUID]
    knows [postgresql://] only, so the whole string is parsed as the path
    of a URL whose host is [postgres], and the password is hashed. *)
Lemma ConnectionStringToUUID_password_dependent :
  utils.ConnectionStringToUUID "postgres://u:p@host/db"
  = Ok "d156b0da-b05b-5bc6-b325-7ebd80ace5f7"
  /\ utils.ConnectionStringToUUID "postgres://u:x@host/db"
     = Ok "b0b0fc59-d9af-56c9-820f-fe82808fed5a"
  /\ utils.ConnectionStringToUUID "postgres://u:p@host/db"
     <> utils.ConnectionStringToUUID "postgres://u:x@host/db"
  /\ (utils.canonicalString <$>
        match url.Parse "postgresql://postgres://u:p@host/db" with
        | Ok u => Some u | Err _ => None end)
     = Some "@postgres:5432//u:p@host/db".
Proof. vm_compute. done. Qed.

(** With the [postgresql://] scheme the same two targets resolve to one
    identity. *)
Lemma ConnectionStringToUUID_postgresql_scheme :
  utils.ConnectionStringToUUID "postgresql://u:p@host:5432/db"
  = Ok "5e5faf0e-897f-52fe-9871-ded547f5c876"
  /\ utils.ConnectionStringToUUID "postgresql://u:x@host/db"
     = Ok "5e5faf0e-897f-52fe-9871-ded547f5c876".
Proof. vm_compute. done. Qed.

(** C3 at the failing input: the scenario of the specification.  The
    two registrations return different identities, and a pool is built
    for each. *)
Lemma RegisterConnection_equivalent_strings_differ :
  let s1 := snd (RegisterConnection "postgres://u:p@host:5432/db"
                                    emptyService) in
  let s2 := snd (RegisterConnection "postgres://u:x@host/db" s1) in
  let id1 := "6bbce347-9ab2-5c4d-9999-4c0228e32de8" in
  let id2 := "b0b0fc59-d9af-56c9-820f-fe82808fed5a" in
  let s3 := snd (GetPool acceptingDriver id1 s2) in
  let s4 := snd (GetPool acceptingDriver id2 s3) in
  fst (RegisterConnection "postgres://u:p@host:5432/db" emptyService)
  = Returned (id1, None)
  /\ fst (RegisterConnection "postgres://u:x@host/db" s1)
     = Returned (id2, None)
  /\ pgxpool.ptr <$> pools s4 !! id1 = Some 0
  /\ pgxpool.ptr <$> pools s4 !! id2 = Some 1.
Proof. vm_compute. done. Qed.

End RegistryClaims.

(** ** Claims about the executor *)

Section ExecutorClaims.
Import databases pgx.

Lemma fillRow_lookup fds : forall i values rowMap row,
  fillRow fds i values rowMap = Returned row ->
  List.length fds <= List.length (drop i values)
  /\ forall name,
       row !! name
       = match lastColumn name (zip fds (drop i values)) with
         | Some v => Some v
         | None => rowMap !! name
         end.
Proof.
  induction fds as [|fd fds IH]; intros i values rowMap row; simpl.
  - intros [= <-]. split; [lia|done].
  - destruct (values !! i) as [v|] eqn:Hv; [|done].
    intros Hfill. apply IH in Hfill as [Hlen Hrow].
    rewrite (drop_S _ _ _ Hv). split; [simpl; lia|].
    intros name. rewrite Hrow. simpl.
    destruct (lastColumn name (zip fds (drop (S i) values))); [done|].
    rewrite lookup_insert. destruct (String.eqb_spec fd name).
    + by rewrite decide_True.
    + by rewrite decide_False.
Qed.

Lemma lastColumn_NoDup name fds : forall values j v,
  NoDup fds ->
  fds !! j = Some name -> values !! j = Some v ->
  lastColumn name (zip fds values) = Some v.
Proof.
  induction fds as [|fd fds IH]; intros values j v Hnd Hj Hv; [done|].
  destruct values as [|v0 values]; [done|].
  apply NoDup_cons in Hnd as [Hfd Hnd]. simpl.
  destruct j as [|j]; simpl in *.
  - injection Hj as ->. injection Hv as ->.
    assert (lastColumn name (zip fds values) = None) as ->.
    { clear -Hfd. revert values.
      induction fds as [|k fds IH]; intros [|w values]; simpl; try done.
      apply not_elem_of_cons in Hfd as [Hk Hfd]. rewrite (IH Hfd).
      destruct (String.eqb_spec k name); congruence. }
    by rewrite String.eqb_refl.
  - by rewrite (IH values j v Hnd Hj Hv).
Qed.

Lemma rowsLoop_rows fds rowsErr : forall vals acc results,
  rowsLoop fds vals rowsErr acc = Returned (results, None) ->
  rowsErr = None
  /\ exists vs new,
       vals = Ok <$> vs /\ results = acc ++ new
       /\ Forall2 (row_of fds) new vs.
Proof.
  induction vals as [|[values|e] vals IH]; intros acc results; simpl.
  - destruct rowsErr; [done|]. intros [= <-].
    split; [done|]. exists [], []. by rewrite app_nil_r.
  - destruct (fillRow fds 0 values ∅) as [row|] eqn:Hrow; [|done].
    intros Hloop. apply IH in Hloop as (-> & vs & new & -> & -> & Hall).
    split; [done|]. exists (values :: vs), (row :: new).
    split; [done|]. split; [by rewrite <- app_assoc|].
    constructor; [|done].
    apply fillRow_lookup in Hrow as [Hlen Hrow].
    rewrite drop_0 in Hlen, Hrow. split; [done|].
    intros name. rewrite Hrow, lookup_empty.
    by destruct (lastColumn name (zip fds values)).
  - done.
Qed.

(** C2, as stated, fails: a returned row is a map and keeps no order of
    its entries.  Two queries whose columns come in opposite orders
    return the same row, and a query with two columns of one name returns
    a row with a single entry. *)
Lemma result_rows_forget_column_order :
  let ab := mkRows ["a"; "b"] [Ok [VInt64 1; VInt64 2]] None in
  let ba := mkRows ["b"; "a"] [Ok [VInt64 2; VInt64 1]] None in
  let xx := mkRows ["x"; "x"] [Ok [VInt64 1; VInt64 2]] None in
  fst (executeQueryInternal (answering ab) true "SELECT 1 AS a, 2 AS b" [])
  = Returned (Ok [ <["b" := VInt64 2]> (<["a" := VInt64 1]> ∅) ])
  /\ fst (executeQueryInternal (answering ba) true "SELECT 2 AS b, 1 AS a" [])
     = Returned (Ok [ <["b" := VInt64 2]> (<["a" := VInt64 1]> ∅) ])
  /\ zip ["a"; "b"] [VInt64 1; VInt64 2] <> zip ["b"; "a"] [VInt64 2; VInt64 1]
  /\ fst (executeQueryInternal (answering xx) true "SELECT 1 AS x, 2 AS x" [])
     = Returned (Ok [ <["x" := VInt64 2]> ∅ ]).
Proof. repeat split; try (vm_compute; reflexivity). discriminate. Qed.

Lemma executeQueryInternal_rows conn readOnly sql args results evs :
  executeQueryInternal conn readOnly sql args = (Returned (Ok results), evs) ->
  exists rows vs,
    Query conn sql args = Ok rows
    /\ Values rows = Ok <$> vs
    /\ Forall2 (row_of (FieldDescriptions rows)) results vs.
Proof.
  unfold executeQueryInternal.
  destruct (Acquire conn); [done|]. destruct (BeginTx conn); [done|].
  destruct (Query conn sql args) as [rows|e]; [|done].
  unfold rowsToMaps.
  destruct (rowsLoop _ _ _ _) as [[res [e|]]|] eqn:Hloop; [done| |done].
  destruct (RowsErr rows); [done|]. destruct (Commit conn); [done|].
  intros [= <- _].
  apply rowsLoop_rows in Hloop as (_ & vs & new & Hvs & -> & Hall).
  by exists rows, vs.
Qed.

(** C2, amended: for every successful [ExecuteQuery] call, the rows
    returned are, in the order the driver delivered them, maps from
    field name to value without an order of entries: each maps a name to
    the value of the last column of that name, and when the column names
    are distinct each maps every column's name to that column's value. *)
Theorem ExecuteQuery_rows
    drv connect connID readOnly sql args s results evs s' :
  ExecuteQuery drv connect connID readOnly sql args s
  = (Returned (Ok results), evs, s') ->
  exists pool rows vs,
    GetPool drv connID s = (Ok pool, s')
    /\ Query (connect pool) sql args = Ok rows
    /\ Values rows = Ok <$> vs
    /\ Forall2 (row_of (FieldDescriptions rows)) results vs
    /\ (NoDup (FieldDescriptions rows) ->
        Forall2 (fun row values =>
                   forall j name v,
                     FieldDescriptions rows !! j = Some name ->
                     values !! j = Some v -> row !! name = Some v)
                results vs).
Proof.
  unfold ExecuteQuery.
  destruct (GetPool drv connID s) as [[pool|e] s1]; [|done].
  destruct (executeQueryInternal _ _ _ _) as [r evs'] eqn:Hexec.
  intros [= -> -> ->].
  apply executeQueryInternal_rows in Hexec as (rows & vs & Hq & Hvs & Hall).
  exists pool, rows, vs. repeat split; try done.
  intros Hnd. eapply Forall2_impl; [exact Hall|].
  intros row values [_ Hrow] j name v Hj Hv.
  rewrite Hrow. by apply lastColumn_NoDup with j.
Qed.

Lemma ExecuteQuery_rows_witness :
  let id := "6bbce347-9ab2-5c4d-9999-4c0228e32de8" in
  let run := ExecuteQuery acceptingDriver (fun _ => answering twoColumns)
                          id true "SELECT id, name FROM t" [] registered in
  fst (fst run)
  = Returned (Ok [ <["name" := VString "a"]> (<["id" := VInt64 1]> ∅);
                   <["name" := VNil]> (<["id" := VInt64 2]> ∅) ])
  /\ exists vs,
       Values twoColumns = Ok <$> vs
       /\ Forall2 (row_of ["id"; "name"])
            [ <["name" := VString "a"]> (<["id" := VInt64 1]> ∅);
              <["name" := VNil]> (<["id" := VInt64 2]> ∅) ] vs.
Proof.
  intros id run.
  assert (run = (Returned (Ok [ <["name" := VString "a"]> (<["id" := VInt64 1]> ∅);
                                <["name" := VNil]> (<["id" := VInt64 2]> ∅) ]),
                 snd (fst run), snd run)) as Hrun
    by (vm_compute; reflexivity).
  split; [by rewrite Hrun|].
  destruct (ExecuteQuery_rows _ _ _ _ _ _ _ _ _ _ Hrun)
    as (pool & rows & vs & _ & Hq & Hvs & Hall & _).
  injection Hq as <-. exists vs. split; [exact Hvs|exact Hall].
Defined.

End ExecutorClaims.

(** ** The schema manager *)

Section ManagerFacts.
Import schemas.
Context {DB : Type} `{!Service DB}.
Implicit Types m : manager DB.

Lemma crawls_refl m : crawls m m.
Proof. split; [done|]. exists []. by rewrite app_nil_r. Qed.

Lemma crawls_trans m1 m2 m3 : crawls m1 m2 -> crawls m2 m3 -> crawls m1 m3.
Proof.
  intros [Hc1 (e1 & Hh1 & Hq1)] [Hc2 (e2 & Hh2 & Hq2)].
  split; [congruence|]. exists (e1 ++ e2).
  split; [by rewrite Hh2, Hh1, app_assoc|by apply Forall_app].
Qed.

Lemma crawl_step_ret {A} (a : A) : crawl_step DB (ret a).
Proof. intros m. apply crawls_refl. Qed.

Lemma crawl_step_panic {A} r : crawl_step DB (@panic DB A r).
Proof. intros m. apply crawls_refl. Qed.

Lemma crawl_step_bind {A B} (c : M DB A) (k : A -> M DB B) :
  crawl_step DB c -> (forall a, crawl_step DB (k a)) -> crawl_step DB (bind c k).
Proof.
  intros Hc Hk m. unfold bind. specialize (Hc m).
  destruct (c m) as [[a|r] m1]; [|done].
  eapply crawls_trans; [exact Hc|apply Hk].
Qed.

Lemma crawl_step_call connID readOnly sql args :
  crawl_step DB (call connID readOnly sql args).
Proof.
  intros m. unfold call.
  destruct (ExecuteQuery _ _ _ _ _) as [r db']. split; [done|].
  eexists. split; [done|]. by repeat constructor.
Qed.

Lemma crawl_step_assertString v : crawl_step DB (assertString v).
Proof. destruct v; first [apply crawl_step_ret|apply crawl_step_panic]. Qed.

Lemma crawl_step_assertBool v : crawl_step DB (assertBool v).
Proof. destruct v; first [apply crawl_step_ret|apply crawl_step_panic]. Qed.

Create HintDb crawl.
Hint Resolve crawl_step_ret crawl_step_panic crawl_step_call
  crawl_step_assertString crawl_step_assertBool : crawl.

Ltac crawl :=
  repeat first
    [ progress eauto with crawl
    | apply crawl_step_bind; [|intros ?]
    | match goal with
      | |- crawl_step _ (match ?r with _ => _ end) => destruct r
      end ].

Lemma crawl_step_columnsLoop rows constraints :
  forall columns, crawl_step DB (columnsLoop rows constraints columns).
Proof.
  induction rows as [|r rows IH]; intros columns; simpl; [crawl|].
  apply crawl_step_bind; [unfold columnOfRow; crawl|intros ?; apply IH].
Qed.

Lemma crawl_step_fetchColumns connID schemaName tableName :
  crawl_step DB (fetchColumns connID schemaName tableName).
Proof.
  unfold fetchColumns, fetchConstraintsForTable. crawl.
  apply crawl_step_columnsLoop.
Qed.

Lemma crawl_step_indexesLoop rows :
  forall indexes, crawl_step DB (indexesLoop rows indexes).
Proof.
  induction rows as [|r rows IH]; intros indexes; simpl; [crawl|].
  apply crawl_step_bind; [unfold indexOfRow; crawl|intros ?; apply IH].
Qed.

Lemma crawl_step_fetchIndexes connID schemaName tableName :
  crawl_step DB (fetchIndexes connID schemaName tableName).
Proof. unfold fetchIndexes. crawl. apply crawl_step_indexesLoop. Qed.

Lemma crawl_step_foreignKeysLoop rows :
  forall fks, crawl_step DB (foreignKeysLoop rows fks).
Proof.
  induction rows as [|r rows IH]; intros fks; simpl; [crawl|].
  apply crawl_step_bind; [unfold foreignKeyOfRow; crawl|intros ?; apply IH].
Qed.

Lemma crawl_step_fetchForeignKeys connID schemaName tableName :
  crawl_step DB (fetchForeignKeys connID schemaName tableName).
Proof. unfold fetchForeignKeys. crawl. apply crawl_step_foreignKeysLoop. Qed.

Hint Resolve crawl_step_fetchColumns crawl_step_fetchIndexes
  crawl_step_fetchForeignKeys : crawl.

Lemma crawl_step_tablesLoop connID schemaName tables :
  forall acc, crawl_step DB (tablesLoop connID schemaName tables acc).
Proof.
  induction tables as [|t tables IH]; intros acc; simpl; [crawl|].
  crawl; apply IH.
Qed.

Lemma crawl_step_schemasLoop connID schemas :
  forall acc, crawl_step DB (schemasLoop connID schemas acc).
Proof.
  induction schemas as [|s schemas IH]; intros acc; simpl; [crawl|].
  unfold fetchTables. crawl; try apply IH.
  apply crawl_step_tablesLoop.
Qed.

(** [LoadSchema], unfolded along the answer to the first query. *)
Lemma LoadSchema_cases connID m :
  let q := EvExecuteQuery connID true querySchemas [] in
  exists r db1,
    ExecuteQuery connID true querySchemas [] (dbService m) = (r, db1)
    /\ match r with
       | Panicked p =>
           LoadSchema connID m
           = (Panicked p,
              mkManager db1 (cache m) (history m ++ [EvLock; q; EvUnlock]))
       | Returned (Err e) =>
           LoadSchema connID m
           = (Returned (Some (fmt_Errorf "获取 Schema 列表失败" e)),
              mkManager db1 (cache m) (history m ++ [EvLock; q; EvUnlock]))
       | Returned (Ok []) =>
           LoadSchema connID m
           = (Returned None,
              mkManager db1 (Some (mkDatabaseInfo []))
                        (history m ++ [EvLock; q; EvSetCache; EvUnlock]))
       | Returned (Ok schemas) =>
           let m1 := mkManager db1 (cache m) (history m ++ [EvLock; q]) in
           match schemasLoop connID schemas [] m1 with
           | (Returned newSchemas, m2) =>
               LoadSchema connID m
               = (Returned None,
                  mkManager (dbService m2) (Some (mkDatabaseInfo newSchemas))
                            (history m2 ++ [EvSetCache; EvUnlock]))
           | (Panicked p, m2) =>
               LoadSchema connID m
               = (Panicked p,
                  mkManager (dbService m2) (cache m2)
                            (history m2 ++ [EvUnlock]))
           end
       end.
Proof.
  intros q. subst q.
  destruct (ExecuteQuery connID true querySchemas [] (dbService m))
    as [r db1] eqn:Hq.
  exists r, db1. split; [done|].
  unfold LoadSchema, bind, defer, log, fetchSchemas, call, setCache, ret.
  cbn -[schemasLoop]. rewrite Hq.
  destruct r as [[[|s rest]|e]|p]; cbn -[schemasLoop];
    rewrite <- ?app_assoc; cbn -[schemasLoop]; try done.
  match goal with
  | |- context [schemasLoop connID (s :: rest) [] ?m1] =>
      destruct (schemasLoop connID (s :: rest) [] m1) as [[newSchemas|p] m2]
  end; cbn; by rewrite <- ?app_assoc.
Qed.

End ManagerFacts.

(** ** Claims about the schema manager *)

Section ManagerClaims.
Import schemas.
Context {DB : Type} `{!Service DB}.
Implicit Types m : manager DB.

(** Case analysis on the run of the loop over the schemas inside
    [LoadSchema_cases], keeping what [crawl_step_schemasLoop] says of it. *)
Ltac case_schemasLoop Hrun Hstep :=
  cbv zeta in Hrun;
  match type of Hrun with
  | context [schemasLoop ?c ?l ?a ?m1] =>
      pose proof (crawl_step_schemasLoop c l a m1) as Hstep;
      destruct (schemasLoop c l a m1) as [[?|?] ?]
  end.

Lemma GetDatabaseInfo_found m d :
  GetDatabaseInfo m = (Some d, true) -> Schemas d <> [].
Proof.
  unfold GetDatabaseInfo. destruct (cache m) as [c|]; [|done].
  destruct (Schemas c) as [|x l] eqn:Hc; simpl; [done|].
  intros [= <-]. by rewrite Hc.
Qed.

(** C6: whenever [LoadSchema] fails with an error, the cached snapshot
    is the one held before the call, the look-up answers as before, and a
    look-up that reports found=true never hands out an empty snapshot. *)
Theorem LoadSchema_error_keeps_cache connID m err :
  fst (LoadSchema connID m) = Returned (Some err) ->
  cache (snd (LoadSchema connID m)) = cache m
  /\ GetDatabaseInfo (snd (LoadSchema connID m)) = GetDatabaseInfo m
  /\ forall d,
       GetDatabaseInfo (snd (LoadSchema connID m)) = (Some d, true) ->
       Schemas d <> [].
Proof.
  intros Herr.
  assert (cache (snd (LoadSchema connID m)) = cache m) as Hcache.
  { destruct (LoadSchema_cases connID m) as (r & db1 & _ & Hrun).
    destruct r as [[[|s rest]|e]|p].
    - by rewrite Hrun in Herr.
    - case_schemasLoop Hrun Hstep; by rewrite Hrun in Herr.
    - by rewrite Hrun.
    - by rewrite Hrun in Herr. }
  split; [done|]. split; [|intros d; apply GetDatabaseInfo_found].
  unfold GetDatabaseInfo. by rewrite Hcache.
Qed.

(** A panic during the crawl leaves the cache alone as well. *)
Lemma LoadSchema_panic_keeps_cache connID m p :
  fst (LoadSchema connID m) = Panicked p ->
  cache (snd (LoadSchema connID m)) = cache m.
Proof.
  intros Hp.
  destruct (LoadSchema_cases connID m) as (r & db1 & _ & Hrun).
  destruct r as [[[|s rest]|e]|p'].
  - by rewrite Hrun in Hp.
  - case_schemasLoop Hrun Hstep; rewrite Hrun in *; [done|].
    apply Hstep.
  - by rewrite Hrun in Hp.
  - by rewrite Hrun.
Qed.

(** C9: if the crawl enumerates zero schemas, [LoadSchema] returns no
    error and publishes an empty snapshot; from then on
    [GetDatabaseInfo] answers (nil, false), and every look-up answers as
    it does on a manager that never loaded anything. *)
Theorem LoadSchema_no_schemas connID m db' :
  ExecuteQuery connID true querySchemas [] (dbService m)
  = (Returned (Ok []), db') ->
  fst (LoadSchema connID m) = Returned None
  /\ cache (snd (LoadSchema connID m)) = Some (mkDatabaseInfo [])
  /\ GetDatabaseInfo (snd (LoadSchema connID m)) = (None, false)
  /\ forall db0 : DB,
       GetDatabaseInfo (snd (LoadSchema connID m))
       = GetDatabaseInfo (NewManager db0)
       /\ (forall schemaName,
             GetSchemaInfo schemaName (snd (LoadSchema connID m))
             = GetSchemaInfo schemaName (NewManager db0))
       /\ (forall schemaName tableName,
             GetTableInfo schemaName tableName (snd (LoadSchema connID m))
             = GetTableInfo schemaName tableName (NewManager db0)).
Proof.
  intros Hq.
  destruct (LoadSchema_cases connID m) as (r & db1 & Hq' & Hrun).
  rewrite Hq in Hq'. injection Hq' as <- <-. rewrite Hrun.
  by repeat split.
Qed.

(** C7, amended: [LoadSchema] takes the write lock of the cache first
    and releases it last; the query that enumerates the schemas, every
    further catalog query of the crawl and the swap of the snapshot all
    happen in between, while the lock is held. *)
Theorem LoadSchema_holds_lock connID m :
  exists queries publish,
    history (snd (LoadSchema connID m))
    = history m
        ++ [EvLock; EvExecuteQuery connID true querySchemas []]
        ++ queries ++ publish ++ [EvUnlock]
    /\ Forall is_query queries
    /\ (publish = [] \/ publish = [EvSetCache]).
Proof.
  destruct (LoadSchema_cases connID m) as (r & db1 & _ & Hrun).
  destruct r as [[[|s rest]|e]|p].
  - exists [], [EvSetCache]. rewrite Hrun. auto.
  - case_schemasLoop Hrun Hstep; rewrite Hrun;
      destruct Hstep as [_ (evs & Hh & Hevs)]; simpl in *.
    + exists evs, [EvSetCache]. rewrite Hh, <- !app_assoc. auto.
    + exists evs, []. rewrite Hh, <- !app_assoc. auto.
  - exists [], []. rewrite Hrun. auto.
  - exists [], []. rewrite Hrun. auto.
Qed.

(** C5, amended.  (1) When the enumeration of the schemas fails,
    [LoadSchema] returns that error, wrapped, and keeps the cache;
    (2) no other failure makes it return an error.  (3) When the
    enumeration of the tables of a schema fails, the schema is left out
    and the crawl goes on with the next schema.  (4) When the columns of
    a table cannot be fetched, the table is left out and the crawl goes
    on with the next table.  (5) When its indexes or its foreign keys
    cannot be fetched, the table is kept with that list empty. *)
Theorem LoadSchema_failure_policy connID m :
  (forall e db',
     ExecuteQuery connID true querySchemas [] (dbService m)
     = (Returned (Err e), db') ->
     fst (LoadSchema connID m)
     = Returned (Some (fmt_Errorf "获取 Schema 列表失败" e))
     /\ cache (snd (LoadSchema connID m)) = cache m)
  /\ (forall err,
        fst (LoadSchema connID m) = Returned (Some err) ->
        exists e db',
          ExecuteQuery connID true querySchemas [] (dbService m)
          = (Returned (Err e), db')
          /\ err = fmt_Errorf "获取 Schema 列表失败" e)
  /\ (forall s rest acc name e,
        get s "schema_name" = VString name ->
        fst (fetchTables connID name m) = Returned (Err e) ->
        schemasLoop connID (s :: rest) acc m
        = schemasLoop connID rest acc (snd (fetchTables connID name m)))
  /\ (forall schemaName t rest acc tableName e,
        get t "table_name" = VString tableName ->
        fst (fetchColumns connID schemaName tableName m) = Returned (Err e) ->
        tablesLoop connID schemaName (t :: rest) acc m
        = tablesLoop connID schemaName rest acc
            (snd (fetchColumns connID schemaName tableName m)))
  /\ (forall schemaName t rest acc tableName columns ri rf,
        let m1 := snd (fetchColumns connID schemaName tableName m) in
        let m2 := snd (fetchIndexes connID schemaName tableName m1) in
        let m3 := snd (fetchForeignKeys connID schemaName tableName m2) in
        get t "table_name" = VString tableName ->
        fst (fetchColumns connID schemaName tableName m)
        = Returned (Ok columns) ->
        fst (fetchIndexes connID schemaName tableName m1) = Returned ri ->
        fst (fetchForeignKeys connID schemaName tableName m2) = Returned rf ->
        tablesLoop connID schemaName (t :: rest) acc m
        = tablesLoop connID schemaName rest
            (acc ++ [mkTableInfo tableName (dbString (get t "description"))
                       (dbInt64 (get t "row_count")) columns
                       (match ri with Ok l => l | Err _ => [] end)
                       (match rf with Ok l => l | Err _ => [] end)])
            m3).
Proof.
  split; [|split; [|split; [|split]]].
  - intros e db' Hq.
    destruct (LoadSchema_cases connID m) as (r & db1 & Hq' & Hrun).
    rewrite Hq in Hq'. injection Hq' as <- <-. by rewrite Hrun.
  - intros err Herr.
    destruct (LoadSchema_cases connID m) as (r & db1 & Hq & Hrun).
    destruct r as [[[|s rest]|e]|p].
    + by rewrite Hrun in Herr.
    + case_schemasLoop Hrun Hstep; by rewrite Hrun in Herr.
    + rewrite Hrun in Herr. injection Herr as <-. eauto.
    + by rewrite Hrun in Herr.
  - intros s rest acc name e Hname Hfetch.
    cbn [schemasLoop]. rewrite Hname. unfold bind at 1. cbn [assertString ret].
    unfold bind at 1.
    destruct (fetchTables connID name m) as [r m1]. simpl in *. by subst r.
  - intros schemaName t rest acc tableName e Hname Hfetch.
    cbn [tablesLoop]. rewrite Hname. unfold bind at 1. cbn [assertString ret].
    unfold bind at 1.
    destruct (fetchColumns connID schemaName tableName m) as [r m1].
    simpl in *. by subst r.
  - intros schemaName t rest acc tableName columns ri rf m1 m2 m3
           Hname Hcols Hidx Hfk. subst m1 m2 m3.
    cbn [tablesLoop]. rewrite Hname. unfold bind at 1. cbn [assertString ret].
    unfold bind at 1.
    destruct (fetchColumns connID schemaName tableName m) as [r m1].
    simpl in *. subst r.
    unfold bind at 1.
    destruct (fetchIndexes connID schemaName tableName m1) as [r m2].
    simpl in *. subst r.
    unfold bind at 1.
    destruct (fetchForeignKeys connID schemaName tableName m2) as [r m3].
    simpl in *. by subst r.
Qed.

End ManagerClaims.

(** ** The claims on concrete databases *)

Section ManagerExamples.
Import schemas.

(** The scenario of the specification: the crawl of [exampleDB] makes
    [GetTableInfo "public" "t"] return exactly the table described. *)
Example GetTableInfo_public_t :
  GetTableInfo "public" "t" (snd (LoadSchema "c" (NewManager exampleDB)))
  = (Some (mkTableInfo "t" "" 0
             [mkColumnInfo "id" "bigint" false None "" ["PRIMARY KEY"];
              mkColumnInfo "name" "text" true None "" []]
             [mkIndexInfo "t_pkey" "btree" ["id"] true true
                "CREATE UNIQUE INDEX t_pkey ON public.t USING btree (id)" ""]
             []),
     true).
Proof. vm_compute. reflexivity. Qed.

(** C5, as stated, fails: the enumeration of the tables of [public]
    fails, and [LoadSchema] returns no error; the schema is left out of
    the snapshot that is published. *)
Lemma LoadSchema_swallows_table_enumeration_failure :
  let run := LoadSchema "c" tablesFailing in
  dbService tablesFailing queryTables [VString "public"]
  = Err (external_error "57014")
  /\ In (EvExecuteQuery "c" true queryTables [VString "public"])
        (history (snd run))
  /\ fst run = Returned None
  /\ cache (snd run) = Some (mkDatabaseInfo []).
Proof. vm_compute. auto 10. Qed.

Lemma LoadSchema_failure_policy_witness :
  (fst (LoadSchema "c" schemasFailing)
   = Returned (Some (fmt_Errorf "获取 Schema 列表失败"
                                (external_error "57014")))
   /\ cache (snd (LoadSchema "c" schemasFailing)) = cache schemasFailing)
  /\ schemasLoop "c" [publicRow] [] tablesFailing
     = schemasLoop "c" [] [] (snd (fetchTables "c" "public" tablesFailing)).
Proof.
  split.
  - apply (proj1 (LoadSchema_failure_policy "c" schemasFailing)
                 (external_error "57014")
                 (failing querySchemas exampleDB)).
    reflexivity.
  - apply (proj1 (proj2 (proj2 (LoadSchema_failure_policy "c" tablesFailing)))
                 publicRow [] [] "public" (external_error "57014")).
    + vm_compute; reflexivity.
    + vm_compute; reflexivity.
Defined.

(** A manager that has loaded [exampleDB] and whose database then
    refuses the enumeration of the schemas keeps what it loaded. *)
Lemma LoadSchema_error_keeps_cache_witness :
  fst (LoadSchema "c" loadedThenFailing)
  = Returned (Some (fmt_Errorf "获取 Schema 列表失败"
                               (external_error "57014")))
  /\ cache (snd (LoadSchema "c" loadedThenFailing)) = cache loadedThenFailing
  /\ GetDatabaseInfo (snd (LoadSchema "c" loadedThenFailing))
     = GetDatabaseInfo loadedThenFailing.
Proof.
  assert (fst (LoadSchema "c" loadedThenFailing)
          = Returned (Some (fmt_Errorf "获取 Schema 列表失败"
                                       (external_error "57014")))) as Herr
    by (vm_compute; reflexivity).
  split; [exact Herr|].
  pose proof (LoadSchema_error_keeps_cache "c" loadedThenFailing _ Herr)
    as (Hc & Hg & _).
  split; [exact Hc|exact Hg].
Defined.

Lemma LoadSchema_no_schemas_witness :
  ExecuteQuery "c" true querySchemas [] (dbService loadedThenEmpty)
  = (Returned (Ok []), emptyDB)
  /\ fst (LoadSchema "c" loadedThenEmpty) = Returned None
  /\ GetDatabaseInfo (snd (LoadSchema "c" loadedThenEmpty)) = (None, false).
Proof.
  assert (ExecuteQuery "c" true querySchemas [] (dbService loadedThenEmpty)
          = (Returned (Ok []), emptyDB)) as Hq by reflexivity.
  split; [exact Hq|].
  pose proof (LoadSchema_no_schemas "c" loadedThenEmpty emptyDB Hq)
    as (Hr & _ & Hg & _).
  split; [exact Hr|exact Hg].
Defined.

(** C7, as stated, fails: in the crawl of [exampleDB] all six catalog
    queries are issued while the write lock of the cache is held. *)
Lemma LoadSchema_queries_under_lock :
  queries_under_lock false
    (history (snd (LoadSchema "c" (NewManager exampleDB)))) = 6.
Proof. vm_compute. reflexivity. Qed.

End ManagerExamples.

(** * Further properties *)

(** ** The registry and the pools *)

Section RegistryExtras.
Import databases registry.

(** X1. Registering a connection string again returns the same identity and
    changes nothing. *)
Theorem RegisterConnection_again connString s id :
  fst (RegisterConnection connString s) = Returned (id, None) ->
  RegisterConnection connString (snd (RegisterConnection connString s))
  = (Returned (id, None), snd (RegisterConnection connString s)).
Proof.
  intros Hreg.
  destruct (RegisterConnection_cases connString s)
    as [[e He]|(n & id' & Hn & _ & _ & Hst & Hout)].
  - rewrite He in *. simpl in *. by injection Hreg as ->.
  - rewrite Hreg in Hout.
    destruct (String.length n <? 20)%nat; [done|]. injection Hout as <-.
    rewrite Hst. unfold RegisterConnection. rewrite Hn. simpl.
    by rewrite lookup_insert_eq.
Qed.

Lemma RegisterConnection_again_witness :
  fst (RegisterConnection "postgres://u:p@host:5432/db" emptyService)
  = Returned (registeredID, None)
  /\ RegisterConnection "postgres://u:p@host:5432/db" registered
     = (Returned (registeredID, None), registered).
Proof.
  assert (fst (RegisterConnection "postgres://u:p@host:5432/db" emptyService)
          = Returned (registeredID, None)) as H by (vm_compute; reflexivity).
  split; [exact H|].
  exact (RegisterConnection_again _ emptyService _ H).
Defined.

(** X2. A new connection string whose normalised form is shorter than 20
    bytes makes [RegisterConnection] panic in its last log line, after
    both maps were written: the registration is in effect, and the next
    call with the same string returns the identity. *)
Theorem RegisterConnection_short connString s n id :
  normalizeConnectionString connString = Ok n ->
  reverseMap s !! n = None ->
  utils.ConnectionStringToUUID n = Ok id ->
  String.length n < 20 ->
  let s' := snd (RegisterConnection connString s) in
  fst (RegisterConnection connString s) = Panicked "slice bounds out of range"
  /\ connMap s' !! id = Some n
  /\ reverseMap s' !! n = Some id
  /\ RegisterConnection connString s' = (Returned (id, None), s').
Proof.
  intros Hn Hnone Hid Hlen s'. subst s'.
  unfold RegisterConnection. rewrite Hn, Hnone, Hid.
  destruct (Nat.ltb_spec (String.length n) 20) as [_|?]; [|lia].
  simpl. by rewrite !lookup_insert_eq.
Qed.

Lemma RegisterConnection_short_witness :
  let id := "956e593f-244a-521d-9c0b-993ff0958ab4" in
  let s' := snd (RegisterConnection "db" emptyService) in
  (normalizeConnectionString "db" = Ok "postgresql://db"
   /\ String.length "postgresql://db" < 20)
  /\ fst (RegisterConnection "db" emptyService)
     = Panicked "slice bounds out of range"
  /\ connMap s' !! id = Some "postgresql://db"
  /\ reverseMap s' !! "postgresql://db" = Some id
  /\ RegisterConnection "db" s' = (Returned (id, None), s').
Proof.
  split; [split; [vm_compute; reflexivity|simpl; lia]|].
  apply (RegisterConnection_short "db" emptyService "postgresql://db").
  - vm_compute; reflexivity.
  - reflexivity.
  - vm_compute; reflexivity.
  - simpl; lia.
Defined.

(** X6. [GetPool] builds a pool at most once per identity: after a call
    that returned a pool, every further call returns that same pool,
    whatever the driver would answer, and changes nothing. *)
Theorem GetPool_again drv connID s pool s' :
  GetPool drv connID s = (Ok pool, s') ->
  forall drv', GetPool drv' connID s' = (Ok pool, s').
Proof.
  unfold GetPool.
  destruct (connMap s !! connID) as [cs|] eqn:Hcs; [|done].
  destruct (pools s !! connID) as [p|] eqn:Hp.
  - intros [= <- <-] drv'. by rewrite Hcs, Hp.
  - destruct (pgxpool.ParseConfig drv cs) as [c|e]; [|done].
    destruct (pgxpool.NewWithConfig drv _); [done|].
    intros [= <- <-] drv'. simpl. by rewrite Hcs, lookup_insert_eq.
Qed.

Lemma GetPool_again_witness :
  let pool := pgxpool.mkPool 0
                (pgxpool.mkConfig "postgres://u:p@host:5432/db" 10 2
                                  3600000000000 1800000000000) in
  GetPool acceptingDriver registeredID registered = (Ok pool, pooled)
  /\ GetPool (pgxpool.mkDriver (fun _ => Err (external_error "refused"))
                               (fun _ => Some (external_error "refused")))
             registeredID pooled
     = (Ok pool, pooled).
Proof.
  intros pool.
  assert (GetPool acceptingDriver registeredID registered = (Ok pool, pooled))
    as H by (vm_compute; reflexivity).
  split; [exact H|]. exact (GetPool_again _ _ _ _ _ H _).
Defined.

(** X7. A failed [GetPool] changes nothing: no pool is stored and none is
    counted as built. *)
Theorem GetPool_failure drv connID s e s' :
  GetPool drv connID s = (Err e, s') -> s' = s.
Proof.
  unfold GetPool.
  destruct (connMap s !! connID) as [cs|]; [|by intros [= _ <-]].
  destruct (pools s !! connID); [done|].
  destruct (pgxpool.ParseConfig drv cs) as [c|e']; [|by intros [= _ <-]].
  destruct (pgxpool.NewWithConfig drv _); [by intros [= _ <-]|done].
Qed.

Lemma GetPool_failure_witness :
  let refusing := pgxpool.mkDriver (fun cs => Ok (pgxpool.mkConfig cs 4 0 0 0))
                                   (fun _ => Some (external_error "refused")) in
  GetPool refusing registeredID registered
  = (Err (fmt_Errorf ("创建连接池失败 (connID: " +:+ registeredID +:+ ")")
                     (external_error "refused")),
     registered).
Proof.
  intros refusing.
  assert (fst (GetPool refusing registeredID registered)
          = Err (fmt_Errorf ("创建连接池失败 (connID: " +:+ registeredID +:+ ")")
                            (external_error "refused"))) as H
    by (vm_compute; reflexivity).
  destruct (GetPool refusing registeredID registered) as [r s'] eqn:Hg.
  simpl in H. subst r. by rewrite (GetPool_failure _ _ _ _ _ Hg).
Defined.

(** X8. A successful [DisconnectConnection] removes the identity and its
    pool, closes that pool if there was one, and is not idempotent: the
    identity is unknown to a second call and to [GetPool]. *)
Theorem DisconnectConnection_effect connID s :
  fst (DisconnectConnection connID s) = None ->
  let s' := snd (DisconnectConnection connID s) in
  connMap s' !! connID = None
  /\ pools s' !! connID = None
  /\ (forall pool, pools s !! connID = Some pool ->
                   pgxpool.ptr pool ∈ closed s')
  /\ DisconnectConnection connID s' = (Some (errors_New "未知的 connID"), s')
  /\ forall drv,
       GetPool drv connID s'
       = (Err (errors_New ("未知的 connID: " +:+ connID)), s').
Proof.
  unfold DisconnectConnection.
  destruct (connMap s !! connID) as [cs|] eqn:Hcs; [|done].
  intros _.
  destruct (pools s !! connID) as [p|] eqn:Hp; simpl;
    unfold GetPool; simpl; rewrite !lookup_delete_eq;
    repeat split; try done.
  intros pool [= <-]. set_solver.
Qed.

Lemma DisconnectConnection_effect_witness :
  fst (DisconnectConnection registeredID pooled) = None
  /\ 0 ∈ closed (snd (DisconnectConnection registeredID pooled))
  /\ fst (DisconnectConnection registeredID
            (snd (DisconnectConnection registeredID pooled)))
     = Some (errors_New "未知的 connID").
Proof.
  assert (fst (DisconnectConnection registeredID pooled) = None) as H
    by (vm_compute; reflexivity).
  split; [exact H|].
  destruct (DisconnectConnection_effect registeredID pooled H)
    as (_ & _ & Hclosed & Hagain & _).
  split.
  - apply (Hclosed (pgxpool.mkPool 0
                      (pgxpool.mkConfig "postgres://u:p@host:5432/db" 10 2
                                        3600000000000 1800000000000))).
    vm_compute; reflexivity.
  - by rewrite Hagain.
Defined.

(** X9. [DisconnectConnection] leaves the other identities and their pools
    alone. *)
Theorem DisconnectConnection_frame connID other s :
  other <> connID ->
  connMap (snd (DisconnectConnection connID s)) !! other = connMap s !! other
  /\ pools (snd (DisconnectConnection connID s)) !! other = pools s !! other.
Proof.
  intros Hne. unfold DisconnectConnection.
  destruct (connMap s !! connID) as [cs|]; [|done].
  destruct (pools s !! connID); simpl; by rewrite ?lookup_delete_ne.
Qed.

Lemma DisconnectConnection_frame_witness :
  "other" <> registeredID
  /\ connMap (snd (DisconnectConnection "other" pooled)) !! registeredID
     = connMap pooled !! registeredID.
Proof.
  assert (registeredID <> "other") as H by discriminate.
  split; [congruence|].
  exact (proj1 (DisconnectConnection_frame "other" registeredID pooled H)).
Defined.

Lemma pools_sound_step s o : pools_sound s -> pools_sound (step s o).
Proof.
  intros (Hown & Hinj & Hcl). destruct o as [cs|id0|drv id0|]; cbn [step].
  - destruct (RegisterConnection_cases cs s)
      as [[e ->]|(n & id & _ & _ & _ & -> & _)]; [done|].
    split; [|done]. simpl. intros id' p Hp.
    destruct (Hown _ _ Hp) as (Hc & ? & ?). repeat split; try done.
    rewrite lookup_insert. by case_decide.
  - unfold DisconnectConnection.
    destruct (connMap s !! id0) as [cs|] eqn:Hcs; [|done].
    destruct (pools s !! id0) as [p0|] eqn:Hp0; simpl.
    + split; [|split]; simpl.
      * intros id p. rewrite lookup_delete. case_decide as Hd; [done|].
        intros Hp. destruct (Hown _ _ Hp) as (Hc & Hn & Hl).
        repeat split; [by rewrite lookup_delete_ne| |done].
        rewrite elem_of_union, elem_of_singleton. intros [Heq|?]; [|done].
        apply Hd. symmetry. by apply (Hinj _ _ _ _ Hp Hp0).
      * intros id1 id2 p1 p2. rewrite !lookup_delete.
        repeat case_decide; try done. apply Hinj.
      * intros n. rewrite elem_of_union, elem_of_singleton.
        intros [->|?]; [|by apply Hcl]. by apply (Hown _ _ Hp0).
    + split; [|split; [|done]]; simpl.
      * intros id p Hp. destruct (Hown _ _ Hp) as (Hc & Hn & Hl).
        repeat split; try done.
        rewrite lookup_delete_ne; [done|]. intros <-. congruence.
      * apply Hinj.
  - unfold GetPool.
    destruct (connMap s !! id0) as [cs|] eqn:Hcs; [|done].
    destruct (pools s !! id0) as [p0|] eqn:Hp0; [done|].
    destruct (pgxpool.ParseConfig drv cs) as [c|e]; [|done].
    destruct (pgxpool.NewWithConfig drv _); [done|].
    split; [|split]; simpl.
    + intros id p. rewrite lookup_insert. case_decide as Hd.
      * intros [= <-]. subst. simpl. repeat split; [done| |lia].
        intros Hin. apply Hcl in Hin. lia.
      * intros Hp. destruct (Hown _ _ Hp) as (Hc & Hn & Hl).
        repeat split; try done. lia.
    + intros id1 id2 p1 p2. rewrite !lookup_insert.
      repeat case_decide; subst; try done.
      * intros [= <-] Hp2 Heq. simpl in Heq.
        destruct (Hown _ _ Hp2) as (_ & _ & Hl). lia.
      * intros Hp1 [= <-] Heq. simpl in Heq.
        destruct (Hown _ _ Hp1) as (_ & _ & Hl). lia.
      * apply Hinj.
    + intros n Hn. apply Hcl in Hn. lia.
  - split; [|split].
    + intros id p. simpl. by rewrite lookup_empty.
    + intros id1 id2 p1 p2. simpl. by rewrite lookup_empty.
    + intros n. rewrite closed_CloseAll. simpl.
      intros [?|(id & p & Hp & <-)]; [by apply Hcl|]. by apply (Hown _ _ Hp).
Qed.

(** X11. After every finite sequence of operations on a new service, each
    pool of the pool map is open, belongs to a registered identity and
    is the pool of that identity only. *)
Theorem pools_sound_run cfg ops :
  pools_sound (run ops (NewPgxService cfg)).
Proof.
  assert (forall l s, pools_sound s -> pools_sound (run l s)) as Hrun.
  { induction l as [|o l IH]; intros s Hs; [done|].
    simpl. apply IH. by apply pools_sound_step. }
  apply Hrun. split; [|split]; simpl.
  - intros ? ?. by rewrite lookup_empty.
  - intros ? ? ? ?. by rewrite lookup_empty.
  - set_solver.
Qed.

(** X4. What [normalizeConnectionString] returns is never empty, is the
    trimmed input with or without [postgresql://] in front, and parses
    as a URL. *)
Theorem normalizeConnectionString_parses connString n :
  normalizeConnectionString connString = Ok n ->
  n <> ""
  /\ (n = strings.TrimSpace connString
      \/ n = "postgresql://" +:+ strings.TrimSpace connString)
  /\ exists u, url.Parse n = Ok u.
Proof.
  unfold normalizeConnectionString.
  destruct (String.eqb_spec (strings.TrimSpace connString) "") as [|Hne];
    [done|].
  destruct (negb _ && negb _).
  - destruct (url.Parse ("postgresql://" +:+ _)) as [u|e] eqn:Hp.
    + intros [= <-]. repeat split; [done|by right|eauto].
    + destruct (url.Parse (strings.TrimSpace connString)) as [u|e'] eqn:Hp';
        [|done].
      intros [= <-]. repeat split; [done|by left|eauto].
  - destruct (url.Parse (strings.TrimSpace connString)) as [u|e] eqn:Hp;
      [|done].
    intros [= <-]. repeat split; [done|by left|eauto].
Qed.

Lemma normalizeConnectionString_parses_witness :
  normalizeConnectionString "  host:5432/db " = Ok "postgresql://host:5432/db"
  /\ exists u, url.Parse "postgresql://host:5432/db" = Ok u.
Proof.
  assert (normalizeConnectionString "  host:5432/db "
          = Ok "postgresql://host:5432/db") as H by (vm_compute; reflexivity).
  split; [exact H|].
  exact (proj2 (proj2 (normalizeConnectionString_parses _ _ H))).
Defined.

(** An identity is only ever resolved for a normalised string that
    starts with one of the two schemes. *)
Lemma resolved_has_scheme connString n id :
  normalizeConnectionString connString = Ok n ->
  utils.ConnectionStringToUUID n = Ok id ->
  has_scheme n.
Proof.
  unfold normalizeConnectionString, has_scheme.
  generalize (strings.TrimSpace connString). intros t.
  destruct (String.eqb t ""); [discriminate|].
  remember (url.Parse ("postgresql://" +:+ t)) as p1 eqn:Hp1.
  remember (url.Parse t) as p2 eqn:Hp2.
  destruct (strings.HasPrefix t "postgresql://") eqn:H1;
    destruct (strings.HasPrefix t "postgres://") eqn:H2; cbn [negb andb].
  - destruct p2; [|discriminate]. intros [= <-]. auto.
  - destruct p2; [|discriminate]. intros [= <-]. auto.
  - destruct p2; [|discriminate]. intros [= <-]. auto.
  - destruct p1 as [u|e].
    + intros [= <-] _. left. reflexivity.
    + destruct p2; [|discriminate]. intros [= <-].
      unfold utils.ConnectionStringToUUID. rewrite H1. cbn [negb].
      rewrite <- Hp1. discriminate.
Qed.

(** X5. After every finite sequence of operations on a new service, every
    connection string held by either registry map starts with
    [postgresql://] or [postgres://]. *)
Theorem registered_strings_have_scheme cfg ops :
  let s := run ops (NewPgxService cfg) in
  (forall cs id, reverseMap s !! cs = Some id -> has_scheme cs)
  /\ (forall id cs, connMap s !! id = Some cs -> has_scheme cs).
Proof.
  assert (forall l s,
            (forall cs id, reverseMap s !! cs = Some id -> has_scheme cs)
            /\ (forall id cs, connMap s !! id = Some cs -> has_scheme cs) ->
            (forall cs id, reverseMap (run l s) !! cs = Some id -> has_scheme cs)
            /\ (forall id cs, connMap (run l s) !! id = Some cs -> has_scheme cs))
    as Hrun.
  { induction l as [|o l IH]; intros s Hs; [done|].
    simpl. apply IH. destruct Hs as [Hr Hc].
    destruct o as [cs0|id0|drv id0|]; cbn [step].
    - destruct (RegisterConnection_cases cs0 s)
        as [[e ->]|(n & id & Hn & _ & Hid & -> & _)]; [done|].
      pose proof (resolved_has_scheme _ _ _ Hn Hid) as Hsch.
      split; simpl; intros k v; rewrite lookup_insert;
        case_decide; try (intros [= <-]; by subst); eauto.
    - unfold DisconnectConnection.
      destruct (connMap s !! id0) as [cs|]; [|done].
      destruct (pools s !! id0); simpl;
        (split; intros k v; rewrite lookup_delete;
         (case_decide; [done|eauto])).
    - destruct (GetPool_registry drv id0 s) as [-> ->]. done.
    - split; intros k v; simpl; by rewrite lookup_empty. }
  apply Hrun. split; intros k v; simpl; by rewrite lookup_empty.
Qed.

(** X3. A connection string without a scheme that parses only as it is, and
    not with [postgresql://] in front, is never registered: the call
    returns the identity [err] with an error and changes nothing. *)
Theorem RegisterConnection_unresolvable connString s n :
  normalizeConnectionString connString = Ok n ->
  ~ has_scheme n ->
  reverseMap s !! n = None ->
  exists e,
    RegisterConnection connString s
    = (Returned ("err", Some (fmt_Errorf "无效的连接字符串格式" e)), s).
Proof.
  intros Hn Hsch Hnone. unfold RegisterConnection. rewrite Hn, Hnone.
  destruct (utils.ConnectionStringToUUID n) as [id|e] eqn:Hid; [|eauto].
  destruct Hsch. by apply (resolved_has_scheme _ _ _ Hn Hid).
Qed.

Lemma RegisterConnection_unresolvable_witness :
  normalizeConnectionString "a b" = Ok "a b"
  /\ ~ has_scheme "a b"
  /\ exists e,
       RegisterConnection "a b" emptyService
       = (Returned ("err", Some (fmt_Errorf "无效的连接字符串格式" e)),
          emptyService).
Proof.
  assert (normalizeConnectionString "a b" = Ok "a b") as Hn
    by (vm_compute; reflexivity).
  assert (~ has_scheme "a b") as Hs by (intros [H|H]; discriminate H).
  split; [exact Hn|]. split; [exact Hs|].
  exact (RegisterConnection_unresolvable "a b" emptyService "a b" Hn Hs
           eq_refl).
Defined.

(** X10. [CloseAll] closes every pool of the pool map and no other pool. *)
Theorem CloseAll_closes s n :
  n ∈ closed (snd (CloseAll s))
  <-> n ∈ closed s
      \/ exists id pool, pools s !! id = Some pool /\ pgxpool.ptr pool = n.
Proof. apply closed_CloseAll. Qed.

End RegistryExtras.

(** ** The executor *)

Section ExecutorExtras.
Import databases pgx.

(** One case per way through [executeQueryInternal]. *)
Ltac executor_cases conn sql args :=
  unfold executeQueryInternal;
  destruct (Acquire conn); [intros [= <- <-]|];
  [|destruct (BeginTx conn); [intros [= <- <-]|];
    [|destruct (Query conn sql args) as [rows|?]; [|intros [= <- <-]];
      [destruct (rowsToMaps rows) as [[results [?|]]|?] eqn:Hmaps;
       [intros [= <- <-]| |intros [= <- <-]];
       [|destruct (RowsErr rows) eqn:Hrerr; [intros [= <- <-]|];
         [|destruct (Commit conn) eqn:Hcommit; intros [= <- <-]]|]|]]].

(** X12. The connection and the transaction are always given back: once a
    connection is acquired, its release is the last call made; once a
    transaction has begun, a roll-back is attempted before that on every
    way out, a panic included. *)
Theorem executeQueryInternal_gives_back conn readOnly sql args r evs :
  executeQueryInternal conn readOnly sql args = (r, evs) ->
  Acquire conn = None ->
  last evs = Some EvRelease
  /\ (BeginTx conn = None ->
      exists before, evs = before ++ [EvRollback; EvRelease]).
Proof.
  intros Hrun Hacq; revert Hrun.
  executor_cases conn sql args; try done;
    (split; [done|]); intros; try done;
    first [ by eexists [_; _; _; _; _]
          | by eexists [_; _; _; _]
          | by eexists [_; _; _] ].
Qed.

Lemma rowsLoop_no_error fds vals rowsErr : forall acc results,
  rowsLoop fds vals rowsErr acc = Returned (results, None) -> rowsErr = None.
Proof.
  induction vals as [|[values|e] vals IH]; intros acc results; simpl.
  - by destruct rowsErr.
  - destruct (fillRow fds 0 values ∅); [apply IH|done].
  - done.
Qed.

Ltac no_commit :=
  simpl; split;
  [split; [intuition discriminate
          |intros (? & ? & ? & ? & ? & ?); simplify_eq; congruence]
  |split; [done|intros ?; discriminate]].

(** X13. The commit is attempted exactly when every row was read and
    converted, and rows are only returned after a successful commit.  The
    second look at [rows.Err()] after [rowsToMaps] can never fail: its
    error message is never returned. *)
Theorem executeQueryInternal_commit conn readOnly sql args :
  let r := fst (executeQueryInternal conn readOnly sql args) in
  let evs := snd (executeQueryInternal conn readOnly sql args) in
  (In EvCommit evs <->
   Acquire conn = None /\ BeginTx conn = None
   /\ exists rows results,
        Query conn sql args = Ok rows
        /\ rowsToMaps rows = Returned (results, None))
  /\ (forall results, r = Returned (Ok results) ->
                      In EvCommit evs /\ Commit conn = None)
  /\ (forall e, r <> Returned (Err (fmt_Errorf "迭代查询结果时发生错误" e))).
Proof.
  intros r evs. subst r evs. unfold executeQueryInternal.
  destruct (Acquire conn) as [ea|]; [no_commit|].
  destruct (BeginTx conn) as [eb|]; [no_commit|].
  destruct (Query conn sql args) as [rows|eq]; [|no_commit].
  destruct (rowsToMaps rows) as [[results [em|]]|p] eqn:Hmaps;
    [no_commit| |no_commit].
  rewrite (rowsLoop_no_error _ _ _ _ _ Hmaps).
  destruct (Commit conn) as [ec|]; simpl.
  - split; [|split; [done|intros e; discriminate]].
    split; [intros _|auto]. repeat split. by exists rows, results.
  - split; [|split; [intros ? _; auto 10|intros e; discriminate]].
    split; [intros _|auto]. repeat split. by exists rows, results.
Qed.

(** X14. The transaction is opened in the access mode the flag asks for, and
    the only statement sent is the one given, with its arguments, inside
    that transaction. *)
Theorem executeQueryInternal_statement conn readOnly sql args :
  let evs := snd (executeQueryInternal conn readOnly sql args) in
  (forall mode, In (EvBeginTx mode) evs -> mode = mode_of readOnly)
  /\ (forall q a, In (EvQuery q a) evs ->
        q = sql /\ a = args
        /\ exists rest,
             evs = [EvAcquire; EvBeginTx (mode_of readOnly); EvQuery sql args]
                   ++ rest
             /\ forall q' a', ~ In (EvQuery q' a') rest).
Proof.
  intros evs. subst evs.
  destruct (executeQueryInternal conn readOnly sql args) as [r evs] eqn:Hrun.
  simpl. revert Hrun.
  executor_cases conn sql args; simpl; (split; [naive_solver|]);
    intros q a Hin; try naive_solver;
    (assert (q = sql /\ a = args) as [-> ->] by naive_solver);
    (split; [done|]); (split; [done|]);
    eexists; (split; [reflexivity|]); simpl; naive_solver.
Qed.

Lemma fillRow_total fds : forall i values rowMap,
  i + List.length fds <= List.length values ->
  exists row, fillRow fds i values rowMap = Returned row.
Proof.
  induction fds as [|fd fds IH]; intros i values rowMap Hlen; simpl in *.
  - eauto.
  - destruct (lookup_lt_is_Some_2 values i) as [v ->]; [lia|].
    apply IH. lia.
Qed.

Lemma rowsLoop_total fds rowsErr : forall vals acc,
  Forall (fun r => match r with
                   | Ok values => List.length values = List.length fds
                   | Err _ => True
                   end) vals ->
  exists r, rowsLoop fds vals rowsErr acc = Returned r.
Proof.
  induction vals as [|[values|e] vals IH]; intros acc Hwf; simpl.
  - destruct rowsErr; eauto.
  - apply Forall_cons in Hwf as [Hlen Hwf].
    destruct (fillRow_total fds 0 values ∅) as [row ->]; [lia|].
    by apply IH.
  - eauto.
Qed.

(** X15. As long as the driver hands over one value per column, the executor
    does not panic. *)
Theorem executeQueryInternal_no_panic conn readOnly sql args :
  (forall rows, Query conn sql args = Ok rows -> well_formed_rows rows) ->
  exists r, fst (executeQueryInternal conn readOnly sql args) = Returned r.
Proof.
  intros Hwf. unfold executeQueryInternal.
  destruct (Acquire conn); [eauto|]. destruct (BeginTx conn); [eauto|].
  destruct (Query conn sql args) as [rows|?]; [|eauto].
  destruct (rowsLoop_total (FieldDescriptions rows) (RowsErr rows)
              (Values rows) [] (Hwf rows eq_refl)) as [[results err] Hr].
  unfold rowsToMaps. rewrite Hr.
  destruct err; [eauto|]. destruct (RowsErr rows); [eauto|].
  destruct (Commit conn); eauto.
Qed.

Lemma executeQueryInternal_no_panic_witness :
  (forall rows, Query (answering twoColumns) "SELECT id, name FROM t" []
                = Ok rows -> well_formed_rows rows)
  /\ exists r,
       fst (executeQueryInternal (answering twoColumns) true
                                 "SELECT id, name FROM t" [])
       = Returned r.
Proof.
  assert (forall rows, Query (answering twoColumns) "SELECT id, name FROM t" []
                       = Ok rows -> well_formed_rows rows) as H.
  { intros rows [= <-]. repeat constructor. }
  split; [exact H|].
  exact (executeQueryInternal_no_panic _ true _ _ H).
Defined.

Lemma size_list_to_set_le (l : list string) :
  size (list_to_set (C := gset string) l) <= List.length l.
Proof.
  induction l as [|a l IH].
  - rewrite list_to_set_nil, size_empty. done.
  - rewrite list_to_set_cons. cbn [List.length].
    destruct (decide (a ∈ (list_to_set l : gset string))) as [Hin|Hnin].
    + assert ({[a]} ∪ list_to_set l = (list_to_set l : gset string)) as ->
        by set_solver. lia.
    + rewrite size_union by set_solver. rewrite size_singleton. lia.
Qed.

(** X16. The keys of a returned row are exactly the column names of the
    query, so a row has at most as many entries as there are columns. *)
Theorem fillRow_keys fds values row :
  fillRow fds 0 values ∅ = Returned row ->
  (forall name, is_Some (row !! name) <-> In name fds)
  /\ size row <= List.length fds.
Proof.
  intros Hfill.
  assert (forall name, is_Some (row !! name) <-> In name fds) as Hkeys.
  { apply fillRow_lookup in Hfill as [Hlen Hrow]. rewrite drop_0 in Hlen, Hrow.
    intros name. rewrite Hrow, lookup_empty. clear Hrow.
    revert values Hlen.
    induction fds as [|fd fds IH]; intros values Hlen; simpl.
    - split; [by intros [? ?]|done].
    - destruct values as [|v values]; [simpl in Hlen; lia|]. simpl.
      specialize (IH values ltac:(simpl in Hlen; lia)).
      destruct (lastColumn name (zip fds values)) eqn:Hl.
      + split; [intros _; right; apply IH; eauto|eauto].
      + destruct (String.eqb_spec fd name) as [->|Hne].
        * split; [by left|eauto].
        * split; [by intros [? ?]|].
          intros [?|Hin]; [done|]. apply IH in Hin. by destruct Hin. }
  split; [done|].
  rewrite <- (size_dom (D := gset string)).
  etransitivity; [|apply size_list_to_set_le].
  apply subseteq_size. intros name Hin.
  apply elem_of_dom, Hkeys in Hin. apply elem_of_list_to_set.
  by apply list_elem_of_In.
Qed.

Lemma fillRow_keys_witness :
  fillRow ["x"; "y"; "x"] 0 [VInt64 1; VInt64 2; VInt64 3] ∅
  = Returned (<["y" := VInt64 2]> (<["x" := VInt64 3]> ∅))
  /\ size (<["y" := VInt64 2]> (<["x" := VInt64 3]> (∅ : Row))) <= 3.
Proof.
  assert (fillRow ["x"; "y"; "x"] 0 [VInt64 1; VInt64 2; VInt64 3] ∅
          = Returned (<["y" := VInt64 2]> (<["x" := VInt64 3]> ∅))) as H
    by (vm_compute; reflexivity).
  split; [exact H|]. exact (proj2 (fillRow_keys _ _ _ H)).
Defined.

(** X17. A command returns no error exactly when the connection, the
    transaction, the command itself and the commit all succeeded; the
    commit is attempted exactly when the command succeeded. *)
Theorem executeNonQueryInternal_success conn readOnly sql args :
  let run := nonquery.executeNonQueryInternal conn readOnly sql args in
  (fst run = None <->
   Acquire (nonquery.base conn) = None /\ BeginTx (nonquery.base conn) = None
   /\ (exists commandTag, nonquery.Exec conn sql args = Ok commandTag)
   /\ Commit (nonquery.base conn) = None)
  /\ (In nonquery.EvCommit (snd run) <->
      Acquire (nonquery.base conn) = None
      /\ BeginTx (nonquery.base conn) = None
      /\ exists commandTag, nonquery.Exec conn sql args = Ok commandTag).
Proof.
  unfold nonquery.executeNonQueryInternal.
  destruct (Acquire (nonquery.base conn)); [simpl; naive_solver|].
  destruct (BeginTx (nonquery.base conn)); [simpl; naive_solver|].
  destruct (nonquery.Exec conn sql args) as [c|e]; [|simpl; naive_solver].
  destruct (Commit (nonquery.base conn)); simpl; naive_solver.
Qed.

(** X18. A command, too, gives back what it took: the release of the
    connection is the last call, after a roll-back attempt when a
    transaction had begun; the access mode follows the flag and the only
    command sent is the one given. *)
Theorem executeNonQueryInternal_gives_back conn readOnly sql args :
  let evs := snd (nonquery.executeNonQueryInternal conn readOnly sql args) in
  Acquire (nonquery.base conn) = None ->
  last evs = Some nonquery.EvRelease
  /\ (BeginTx (nonquery.base conn) = None ->
      exists before, evs = before ++ [nonquery.EvRollback; nonquery.EvRelease])
  /\ (forall mode, In (nonquery.EvBeginTx mode) evs -> mode = mode_of readOnly)
  /\ (forall q a, In (nonquery.EvExec q a) evs -> q = sql /\ a = args).
Proof.
  intros evs Hacq. subst evs. unfold nonquery.executeNonQueryInternal.
  rewrite Hacq. unfold mode_of.
  destruct (BeginTx (nonquery.base conn)) as [eb|];
    [|destruct (nonquery.Exec conn sql args) as [c|e];
      [destruct (Commit (nonquery.base conn))|]];
    simpl; (split; [done|]);
    (split; [intros ?; try done;
             first [by eexists [_; _; _; _]|by eexists [_; _; _]]|]);
    (split; [intros mode Hin|intros q a Hin]);
    repeat (destruct Hin as [Hin|Hin]); try done; simplify_eq; done.
Qed.

Lemma executeNonQueryInternal_gives_back_witness :
  Acquire (nonquery.base obeying) = None
  /\ last (snd (nonquery.executeNonQueryInternal obeying false
                  "INSERT INTO temp.t VALUES (1)" []))
     = Some nonquery.EvRelease.
Proof.
  split; [reflexivity|].
  exact (proj1 (executeNonQueryInternal_gives_back obeying false
                  "INSERT INTO temp.t VALUES (1)" [] eq_refl)).
Defined.

Lemma executeQueryInternal_gives_back_witness :
  Acquire (answering twoColumns) = None
  /\ last (snd (executeQueryInternal (answering twoColumns) true
                  "SELECT id, name FROM t" []))
     = Some EvRelease.
Proof.
  split; [reflexivity|].
  destruct (executeQueryInternal (answering twoColumns) true
              "SELECT id, name FROM t" []) as [r evs] eqn:Hrun.
  exact (proj1 (executeQueryInternal_gives_back _ _ _ _ _ _ Hrun eq_refl)).
Defined.

End ExecutorExtras.

(** ** The schema manager *)

Section ManagerExtras.
Import schemas.
Context {DB : Type} `{!Service DB}.
Implicit Types m : manager DB.

Section ReadOnly.
Variable connID : string.
Variable I : DB -> Prop.
Hypothesis I_kept :
  forall sql args db, I db -> I (snd (ExecuteQuery connID true sql args db)).

Local Abbreviation step c := (service_step connID I c).

Lemma service_step_ret {A} (a : A) : step (@ret DB A a).
Proof. intros m Hm. repeat split; [done|]. exists []. by rewrite app_nil_r. Qed.

Lemma service_step_panic {A} r : step (@panic DB A r).
Proof. intros m Hm. repeat split; [done|]. exists []. by rewrite app_nil_r. Qed.

Lemma service_step_bind {A B} (c : M DB A) (k : A -> M DB B) :
  step c -> (forall a, step (k a)) -> step (bind c k).
Proof.
  intros Hc Hk m Hm. unfold bind. specialize (Hc m Hm).
  destruct (c m) as [[a|r] m1]; [|done]. simpl in Hc.
  destruct Hc as (HI & Hcache & e1 & Hh1 & He1).
  destruct (Hk a m1 HI) as (HI' & Hcache' & e2 & Hh2 & He2).
  split; [done|]. split; [congruence|]. exists (e1 ++ e2).
  split; [by rewrite Hh2, Hh1, app_assoc|by apply Forall_app].
Qed.

Lemma service_step_call sql args : step (call connID true sql args).
Proof.
  intros m Hm. unfold call. pose proof (I_kept sql args _ Hm) as HI.
  destruct (ExecuteQuery _ _ _ _ _) as [r db']. simpl in *.
  repeat split; [done|]. eexists. split; [done|]. by repeat constructor.
Qed.

Lemma service_step_assertString v : step (@assertString DB v).
Proof. destruct v; first [apply service_step_ret|apply service_step_panic]. Qed.

Lemma service_step_assertBool v : step (@assertBool DB v).
Proof. destruct v; first [apply service_step_ret|apply service_step_panic]. Qed.

Ltac steps :=
  repeat first
    [ apply service_step_ret | apply service_step_panic
    | apply service_step_call | apply service_step_assertString
    | apply service_step_assertBool
    | apply service_step_bind; [|intros ?]
    | match goal with
      | |- service_step _ _ (match ?r with _ => _ end) => destruct r
      end ].

Lemma service_step_columnsLoop rows constraints :
  forall columns, step (columnsLoop rows constraints columns).
Proof.
  induction rows as [|r rows IH]; intros columns; simpl; [steps|].
  apply service_step_bind; [unfold columnOfRow; steps|intros ?; apply IH].
Qed.

Lemma service_step_fetchColumns schemaName tableName :
  step (fetchColumns connID schemaName tableName).
Proof.
  unfold fetchColumns, fetchConstraintsForTable. steps.
  apply service_step_columnsLoop.
Qed.

Lemma service_step_indexesLoop rows :
  forall indexes, step (indexesLoop rows indexes).
Proof.
  induction rows as [|r rows IH]; intros indexes; simpl; [steps|].
  apply service_step_bind; [unfold indexOfRow; steps|intros ?; apply IH].
Qed.

Lemma service_step_foreignKeysLoop rows :
  forall fks, step (foreignKeysLoop rows fks).
Proof.
  induction rows as [|r rows IH]; intros fks; simpl; [steps|].
  apply service_step_bind; [unfold foreignKeyOfRow; steps|intros ?; apply IH].
Qed.

Lemma service_step_tablesLoop schemaName tables :
  forall acc, step (tablesLoop connID schemaName tables acc).
Proof.
  induction tables as [|t tables IH]; intros acc; simpl; [steps|].
  apply service_step_bind; [steps|intros ?].
  apply service_step_bind; [apply service_step_fetchColumns|intros [cols|e]];
    [|apply IH].
  apply service_step_bind;
    [unfold fetchIndexes; steps; apply service_step_indexesLoop|intros ?].
  apply service_step_bind;
    [unfold fetchForeignKeys; steps; apply service_step_foreignKeysLoop
    |intros ?].
  apply IH.
Qed.

Lemma service_step_schemasLoop schemas :
  forall acc, step (schemasLoop connID schemas acc).
Proof.
  induction schemas as [|s schemas IH]; intros acc; simpl; [steps|].
  apply service_step_bind; [steps|intros ?].
  apply service_step_bind; [unfold fetchTables; steps|intros [tables|e]];
    [|apply IH].
  apply service_step_bind; [apply service_step_tablesLoop|intros ?; apply IH].
Qed.

Ltac events_ok :=
  repeat (apply List.Forall_cons; [cbn; first [tauto|intros _; by split]|]);
  try apply List.Forall_nil.

Lemma LoadSchema_service_step m :
  I (dbService m) ->
  I (dbService (snd (LoadSchema connID m)))
  /\ exists evs,
       history (snd (LoadSchema connID m)) = history m ++ evs
       /\ Forall (fun e => is_query e -> read_only_on connID e) evs.
Proof.
  intros Hm.
  destruct (LoadSchema_cases connID m) as (r & db1 & Hq & Hrun).
  pose proof (I_kept querySchemas [] _ Hm) as H1. rewrite Hq in H1.
  simpl in H1.
  assert (forall l : list event,
            Forall (read_only_on connID) l ->
            Forall (fun e => is_query e -> read_only_on connID e) l) as Hweak.
  { intros l Hl. eapply Forall_impl; [exact Hl|]. auto. }
  destruct r as [[[|s rest]|e]|p].
  - rewrite Hrun. split; [done|]. eexists. split; [done|]. events_ok.
  - cbv zeta in Hrun.
    match type of Hrun with
    | context [schemasLoop ?c ?l ?a ?m1] =>
        pose proof (service_step_schemasLoop l a m1 H1) as Hstep;
        destruct (schemasLoop c l a m1) as [[?|?] m2]
    end; rewrite Hrun; simpl in *;
      destruct Hstep as (HI & _ & evs & -> & Hevs);
      (split; [done|]); rewrite <- !app_assoc;
      (eexists; split; [done|]); simpl;
      do 2 (apply List.Forall_cons; [cbn; first [tauto|intros _; by split]|]);
      (apply Forall_app; split; [by apply Hweak|]); events_ok.
  - rewrite Hrun. split; [done|]. eexists. split; [done|]. events_ok.
  - rewrite Hrun. split; [done|]. eexists. split; [done|]. events_ok.
Qed.

(** X19. [LoadSchema] uses the service only through read-only queries on
    the connection it was given: it keeps every property of the service
    that such queries keep, and every call in its history is one. *)
Theorem LoadSchema_read_only m :
  I (dbService m) ->
  I (dbService (snd (LoadSchema connID m)))
  /\ exists evs,
       history (snd (LoadSchema connID m)) = history m ++ evs
       /\ Forall (fun e => is_query e -> read_only_on connID e) evs.
Proof. exact (LoadSchema_service_step m). Qed.

End ReadOnly.

End ManagerExtras.

Lemma LoadSchema_read_only_witness :
  schemas.dbService (snd (schemas.LoadSchema "c" loadedThenFailing))
  = failing schemas.querySchemas exampleDB.
Proof.
  apply (LoadSchema_read_only "c"
           (fun db => db = failing schemas.querySchemas exampleDB)).
  - intros sql args db ->. reflexivity.
  - reflexivity.
Defined.

(** ** The manager on top of [pgxService] *)

Section ManagerOnPgx.
Import schemas databases.
Variable drv : pgxpool.Driver.
Variable connect : pgxpool.Pool -> pgx.Conn.

Local Instance pgx_service : Service pgxService :=
  pgxService_Service drv connect.

Lemma ExecuteQuery_state connID readOnly sql args s :
  snd (schemas.ExecuteQuery connID readOnly sql args s)
  = snd (GetPool drv connID s).
Proof.
  unfold schemas.ExecuteQuery, pgx_service, pgxService_Service,
    databases.ExecuteQuery.
  destruct (GetPool drv connID s) as [[pool|e] s']; [|done].
  by destruct (executeQueryInternal _ _ _ _).
Qed.

Lemma GetPool_state connID s :
  snd (GetPool drv connID s) = s
  \/ exists pool,
       pools s !! connID = None
       /\ snd (GetPool drv connID s)
          = mkService (config s) (connMap s) (reverseMap s)
                      (<[connID := pool]> (pools s))
                      (S (allocated s)) (closed s).
Proof.
  unfold GetPool.
  destruct (connMap s !! connID) as [cs|]; [|by left].
  destruct (pools s !! connID) as [p|] eqn:Hp; [by left|].
  destruct (pgxpool.ParseConfig drv cs) as [c|e]; [|by left].
  destruct (pgxpool.NewWithConfig drv _); [by left|].
  right. eauto.
Qed.

(** X20. A crawl through [pgxService] registers and deregisters nothing,
    closes no pool, leaves the pools of the other identities alone and
    builds at most one pool, for the connection it crawls, however many
    catalog queries it makes. *)
Theorem LoadSchema_builds_one_pool connID (m : manager pgxService) :
  let s := dbService m in
  let s' := dbService (snd (LoadSchema connID m)) in
  connMap s' = connMap s /\ reverseMap s' = reverseMap s
  /\ closed s' = closed s
  /\ (forall id, id <> connID -> pools s' !! id = pools s !! id)
  /\ (allocated s' = allocated s /\ pools s' !! connID = pools s !! connID
      \/ allocated s' = S (allocated s) /\ pools s !! connID = None
         /\ is_Some (pools s' !! connID)).
Proof.
  intros s s'.
  apply (LoadSchema_service_step connID
           (fun db =>
              connMap db = connMap s /\ reverseMap db = reverseMap s
              /\ closed db = closed s
              /\ (forall id, id <> connID -> pools db !! id = pools s !! id)
              /\ (allocated db = allocated s
                  /\ pools db !! connID = pools s !! connID
                  \/ allocated db = S (allocated s)
                     /\ pools s !! connID = None
                     /\ is_Some (pools db !! connID)))).
  - intros sql args db (Hc & Hr & Hcl & Hothers & Hpool).
    rewrite ExecuteQuery_state.
    destruct (GetPool_state connID db) as [->|(pool & Hnone & ->)]; [done|].
    simpl. repeat split; try done.
    + intros id Hid. rewrite lookup_insert_ne; auto.
    + right. rewrite lookup_insert_eq.
      destruct Hpool as [[Ha Hp']|(_ & _ & [? Hp'])]; [|congruence].
      repeat split; [by rewrite Ha|congruence|eauto].
  - repeat split; auto.
Qed.

(** X21. A crawl on a connection that is not registered fails with the
    unknown-identity error of [GetPool], wrapped twice; the cache and
    the service stay as they were. *)
Theorem LoadSchema_unknown_connection connID (m : manager pgxService) :
  connMap (dbService m) !! connID = None ->
  LoadSchema connID m
  = (Returned
       (Some (fmt_Errorf "获取 Schema 列表失败"
                (fmt_Errorf ("获取连接池失败 (connID: " +:+ connID +:+ ")")
                            (errors_New ("未知的 connID: " +:+ connID))))),
     mkManager (dbService m) (cache m)
               (history m ++ [EvLock;
                              EvExecuteQuery connID true querySchemas [];
                              EvUnlock])).
Proof.
  intros Hnone.
  destruct (LoadSchema_cases connID m) as (r & db1 & Hq & Hrun).
  revert Hq. unfold schemas.ExecuteQuery, pgx_service, pgxService_Service,
    databases.ExecuteQuery, GetPool. rewrite Hnone.
  intros [= <- <-]. exact Hrun.
Qed.

End ManagerOnPgx.

Lemma LoadSchema_unknown_connection_witness :
  databases.connMap emptyService !! "nobody" = None
  /\ fst (@schemas.LoadSchema _
            (pgxService_Service acceptingDriver (fun _ => answering twoColumns))
            "nobody" (schemas.NewManager emptyService))
     = Returned
         (Some (fmt_Errorf "获取 Schema 列表失败"
                  (fmt_Errorf "获取连接池失败 (connID: nobody)"
                              (errors_New "未知的 connID: nobody")))).
Proof.
  split; [reflexivity|].
  exact (f_equal fst
           (LoadSchema_unknown_connection acceptingDriver
              (fun _ => answering twoColumns) "nobody"
              (schemas.NewManager emptyService) eq_refl)).
Defined.

(** ** The look-ups and the decoding of catalog rows *)

Section LookupExtras.
Import schemas.
Context {DB : Type} `{!Service DB}.
Implicit Types m : manager DB.

Lemma find_first {A} (f : A -> bool) (l : list A) :
  match List.find f l with
  | Some x =>
      f x = true
      /\ exists before after,
           l = before ++ x :: after /\ Forall (fun y => f y = false) before
  | None => Forall (fun y => f y = false) l
  end.
Proof.
  induction l as [|a l IH]; simpl; [done|].
  destruct (f a) eqn:Hfa.
  - split; [done|]. by exists [], l.
  - destruct (List.find f l) as [x|].
    + destruct IH as (Hx & before & after & -> & Hb).
      split; [done|]. exists (a :: before), after. split; [done|].
      by constructor.
    + by constructor.
Qed.

Lemma GetSchemaInfo_found schemaName m :
  snd (GetSchemaInfo schemaName m)
  = if fst (GetSchemaInfo schemaName m) then true else false.
Proof.
  unfold GetSchemaInfo. destruct (cache m); [|done].
  by destruct (List.find _ _).
Qed.

(** X22. [GetSchemaInfo] returns the first schema of the snapshot that bears
    the name, with found=true, and then [GetDatabaseInfo] finds the
    snapshot too; it returns nil with found=false exactly when the
    snapshot has no schema of that name. *)
Theorem GetSchemaInfo_first schemaName m :
  match GetSchemaInfo schemaName m with
  | (Some s, found) =>
      found = true /\ SchemaName s = schemaName
      /\ exists d before after,
           cache m = Some d /\ Schemas d = before ++ s :: after
           /\ Forall (fun x => SchemaName x <> schemaName) before
           /\ GetDatabaseInfo m = (Some d, true)
  | (None, found) =>
      found = false
      /\ forall d, cache m = Some d ->
                   Forall (fun x => SchemaName x <> schemaName) (Schemas d)
  end.
Proof.
  unfold GetSchemaInfo, GetDatabaseInfo.
  destruct (cache m) as [d|]; [|done].
  pose proof (find_first (fun s => String.eqb (SchemaName s) schemaName)
                         (Schemas d)) as Hfind.
  destruct (List.find _ (Schemas d)) as [s|].
  - destruct Hfind as (Hs & before & after & Hd & Hb).
    split; [done|]. split; [by apply String.eqb_eq|].
    exists d, before, after. repeat split; try done.
    + eapply Forall_impl; [exact Hb|]. intros x Hx. by apply String.eqb_neq.
    + rewrite Hd. by destruct before.
  - split; [done|]. intros d' [= <-].
    eapply Forall_impl; [exact Hfind|]. intros x Hx. by apply String.eqb_neq.
Qed.

(** X23. [GetTableInfo] returns the first table of that name in the schema
    [GetSchemaInfo] finds, and nil with found=false when the schema is
    missing or has no such table. *)
Theorem GetTableInfo_first schemaName tableName m :
  match GetTableInfo schemaName tableName m with
  | (Some t, found) =>
      found = true /\ TableName t = tableName
      /\ exists s before after,
           GetSchemaInfo schemaName m = (Some s, true)
           /\ Tables s = before ++ t :: after
           /\ Forall (fun x => TableName x <> tableName) before
  | (None, found) =>
      found = false
      /\ forall s, GetSchemaInfo schemaName m = (Some s, true) ->
                   Forall (fun x => TableName x <> tableName) (Tables s)
  end.
Proof.
  unfold GetTableInfo.
  pose proof (GetSchemaInfo_found schemaName m) as Hs.
  destruct (GetSchemaInfo schemaName m) as [[s|] found];
    cbn [fst snd] in Hs; subst found.
  - pose proof (find_first (fun t => String.eqb (TableName t) tableName)
                           (Tables s)) as Hfind.
    destruct (List.find _ (Tables s)) as [t|].
    + destruct Hfind as (Ht & before & after & Hd & Hb).
      split; [done|]. split; [by apply String.eqb_eq|].
      exists s, before, after. repeat split; try done.
      eapply Forall_impl; [exact Hb|]. intros x Hx. by apply String.eqb_neq.
    + split; [done|]. intros s' [= <-].
      eapply Forall_impl; [exact Hfind|]. intros x Hx. by apply String.eqb_neq.
  - split; [done|]. intros s' [=].
Qed.

(** X24. [columnConstraints] attaches a constraint kind to a column exactly
    when some constraint row lists the column in a [column_names] of type
    [[]string] and its kind is neither FOREIGN KEY nor empty.  A
    [column_names] delivered as [[]any] attaches nothing. *)
Theorem columnConstraints_spec colName constraints kind :
  In kind (columnConstraints colName constraints)
  <-> exists constr cols,
        In constr constraints
        /\ get constr "column_names" = VStrings cols
        /\ In colName cols
        /\ get constr "constraint_type_desc" = VString kind
        /\ kind <> ForeignKeyConstraint /\ kind <> "".
Proof.
  unfold columnConstraints.
  assert (forall a l, stringInSlice a l = true <-> In a l) as Hin.
  { intros a l. induction l as [|b l IH]; simpl; [done|].
    destruct (String.eqb_spec b a) as [->|Hne]; [by intuition|].
    rewrite IH. intuition congruence. }
  match goal with |- context [fold_left ?f _ _] => set (F := f) end.
  assert (forall l acc,
            In kind (fold_left F l acc)
            <-> In kind acc
                \/ exists constr cols,
                     In constr l
                     /\ get constr "column_names" = VStrings cols
                     /\ In colName cols
                     /\ get constr "constraint_type_desc" = VString kind
                     /\ kind <> ForeignKeyConstraint /\ kind <> "") as Hfold.
  { induction l as [|c l IH]; intros acc.
    - simpl. split; [by left|]. by intros [?|(? & ? & [] & _)].
    - cbn [fold_left]. rewrite IH. clear IH.
      assert (In kind (F acc c)
              <-> In kind acc
                  \/ exists cols,
                       get c "column_names" = VStrings cols
                       /\ In colName cols
                       /\ get c "constraint_type_desc" = VString kind
                       /\ kind <> ForeignKeyConstraint /\ kind <> "") as ->.
      { unfold F.
        destruct (get c "column_names") as [| | | | | | | |cols| |];
          try (simpl; split; [by left|by intros [?|(? & ? & _)]]).
        destruct (stringInSlice colName cols) eqn:Hslice.
        - apply Hin in Hslice.
          destruct (get c "constraint_type_desc")
            as [|d| | | | | | | | |];
            try (simpl; split; [by left|by intros [?|(? & ? & ? & ? & _)]]).
          destruct (String.eqb_spec d ForeignKeyConstraint) as [->|Hfk];
            [simpl; split; [by left|];
             intros [?|(? & ? & ? & ? & ? & ?)]; [done|congruence]|].
          destruct (String.eqb_spec d "") as [->|Hem];
            [simpl; split; [by left|];
             intros [?|(? & ? & ? & ? & ? & ?)]; [done|congruence]|].
          simpl. rewrite in_app_iff. simpl. split.
          + intros [?|[<-|[]]]; [by left|]. right. by exists cols.
          + intros [?|(? & ? & ? & [= <-] & ? & ?)]; [by left|]. right. by left.
        - assert (~ In colName cols) as Hnin
            by (rewrite <- Hin; congruence).
          simpl. split; [by left|].
          intros [?|(? & [= <-] & ? & _)]; [done|]. by destruct Hnin. }
      split.
      + intros [[?|(cols & ? & ? & ? & ? & ?)]|(c' & cols & ? & ?)].
        * by left.
        * right. exists c, cols. repeat split; try done. by left.
        * right. exists c', cols. split; [by right|done].
      + intros [?|(c' & cols & [<-|?] & ?)].
        * by left; left.
        * left; right. by exists cols.
        * right. by exists c', cols. }
  rewrite Hfold. split.
  - by intros [[]|?].
  - by right.
Qed.

(** X25. [interfaceSliceToStringSlice] gives back a slice of strings as it
    is, whether the driver delivered it as [[]string] or as [[]any], and
    drops the nil items of a [[]any]. *)
Theorem interfaceSliceToStringSlice_strings :
  (forall l, interfaceSliceToStringSlice (VStrings l) = l)
  /\ (forall l, interfaceSliceToStringSlice (VAnys (VString <$> l)) = l)
  /\ (forall l1 l2,
        interfaceSliceToStringSlice
          (VAnys ((VString <$> l1) ++ VNil :: (VString <$> l2)))
        = l1 ++ l2).
Proof.
  assert (forall l, interfaceSliceToStringSlice (VAnys (VString <$> l)) = l)
    as Hl.
  { induction l as [|a l IH]; [done|]. cbn. f_equal. exact IH. }
  split; [done|]. split; [exact Hl|].
  intros l1 l2. induction l1 as [|a l1 IH].
  - exact (Hl l2).
  - cbn. f_equal. exact IH.
Qed.

Lemma columnsLoop_names constraints : forall rows acc m res m',
  columnsLoop rows constraints acc m = (Returned res, m') ->
  exists new,
    res = acc ++ new
    /\ ColumnName <$> new = name_of "column_name" <$> rows
    /\ Forall (fun c => Constraints c
                        = columnConstraints (ColumnName c) constraints) new.
Proof.
  induction rows as [|r rows IH]; intros acc m res m'.
  - intros [= <- _]. exists []. by rewrite app_nil_r.
  - cbn [columnsLoop]. unfold bind at 1. unfold columnOfRow, bind.
    destruct (get r "column_name") as [|cn| | | | | | | | |] eqn:Hcn;
      try discriminate.
    destruct (get r "is_nullable") as [|nl| | | | | | | | |];
      try discriminate.
    cbn [assertString ret]. intros Hloop.
    apply IH in Hloop as (new & -> & Hnames & Hall).
    eexists (_ :: new). rewrite <- app_assoc. split; [reflexivity|].
    split.
    + rewrite !fmap_cons. f_equal; [|exact Hnames].
      unfold name_of. by rewrite Hcn.
    + by constructor.
Qed.


(** X26. [fetchColumns] fails only with the error of the column query, which
    it returns as it is.  When that query succeeds the columns come in
    the order of its rows, under their [column_name], and a failure of
    the constraint query is swallowed: every column then has an empty
    list of constraints. *)
Theorem fetchColumns_policy connID schemaName tableName m :
  let q := call connID true queryColumns
                [VString schemaName; VString tableName] in
  (forall e, fst (q m) = Returned (Err e) ->
             fetchColumns connID schemaName tableName m
             = (Returned (Err e), snd (q m)))
  /\ (forall e, fst (fetchColumns connID schemaName tableName m)
                = Returned (Err e) ->
                fst (q m) = Returned (Err e))
  /\ (forall rows columns,
        fst (q m) = Returned (Ok rows) ->
        fst (fetchColumns connID schemaName tableName m)
        = Returned (Ok columns) ->
        ColumnName <$> columns = name_of "column_name" <$> rows
        /\ forall e,
             fst (fetchConstraintsForTable connID schemaName tableName
                                           (snd (q m)))
             = Returned (Err e) ->
             Forall (fun c => Constraints c = []) columns).
Proof.
  intros q. subst q. unfold fetchColumns, bind. cbv beta.
  destruct (call connID true queryColumns _ m) as [[[rows|e]|p] m1];
    cbn [fst snd].
  - destruct (fetchConstraintsForTable connID schemaName tableName m1)
      as [[rc|p] m2]; cbn [fst snd].
    + destruct (columnsLoop rows match rc with Ok c => c | Err _ => [] end
                            [] m2) as [[cols|p] m3] eqn:Hloop;
        cbn [fst snd ret].
      * split; [intros ? [=]|]. split; [intros ? [=]|].
        intros rows' columns [= <-] [= <-].
        apply columnsLoop_names in Hloop as (new & -> & Hnames & Hall).
        split; [exact Hnames|]. intros e [= ->].
        eapply Forall_impl; [exact Hall|]. by intros c ->.
      * split; [intros ? [=]|]. split; [intros ? [=]|]. intros ? ? _ [=].
    + split; [intros ? [=]|]. split; [intros ? [=]|]. intros ? ? _ [=].
  - split; [by intros ? [= <-]|]. split; [by intros ? [= <-]|].
    intros ? ? [=].
  - split; [intros ? [=]|]. split; [intros ? [=]|]. intros ? ? [=].
Qed.

End LookupExtras.

Lemma fetchColumns_policy_witness :
  exists rows columns,
    fst (schemas.call "c" true schemas.queryColumns
                      [VString "public"; VString "t"] constraintsFailing)
    = Returned (Ok rows)
    /\ fst (schemas.fetchColumns "c" "public" "t" constraintsFailing)
       = Returned (Ok columns)
    /\ schemas.ColumnName <$> columns = name_of "column_name" <$> rows
    /\ Forall (fun c => schemas.Constraints c = []) columns
    /\ length rows = 2.
Proof.
  pose (rows :=
          match exampleDB schemas.queryColumns
                          [VString "public"; VString "t"] with
          | Ok r => r
          | Err _ => []
          end).
  pose (columns :=
          match fst (schemas.fetchColumns "c" "public" "t"
                                          constraintsFailing) with
          | Returned (Ok c) => c
          | _ => []
          end).
  assert (fst (schemas.call "c" true schemas.queryColumns
                            [VString "public"; VString "t"]
                            constraintsFailing)
          = Returned (Ok rows)) as Hq by (vm_compute; reflexivity).
  assert (fst (schemas.fetchColumns "c" "public" "t" constraintsFailing)
          = Returned (Ok columns)) as Hf by (vm_compute; reflexivity).
  exists rows, columns.
  pose proof (proj2 (proj2 (fetchColumns_policy "c" "public" "t"
                              constraintsFailing))
                rows columns Hq Hf) as [Hnames Hempty].
  split; [exact Hq|]. split; [exact Hf|]. split; [exact Hnames|].
  split; [|vm_compute; reflexivity].
  apply (Hempty (external_error "57014")). vm_compute. reflexivity.
Defined.

(** ** Quoted identifiers *)

Section QuotingExtras.
Import quoting.

Lemma append_cons (x : ascii) (a b : string) :
  String x a +:+ b = String x (a +:+ b).
Proof. reflexivity. Qed.

Lemma append_nil (b : string) : EmptyString +:+ b = b.
Proof. reflexivity. Qed.

Lemma append_assoc_string (a b c : string) :
  (a +:+ b) +:+ c = a +:+ (b +:+ c).
Proof.
  induction a as [|x a IH]; [reflexivity|].
  rewrite !append_cons. f_equal. exact IH.
Qed.

Lemma read_quoted_escaped s rest :
  strings.HasPrefix rest (String dquote EmptyString) = false ->
  read_quoted
    (replace 0 s (String dquote EmptyString)
             (String dquote (String dquote EmptyString))
     +:+ String dquote rest)
  = Some (s, rest).
Proof.
  intros Hrest. induction s as [|c s IH].
  - cbn [replace]. rewrite append_nil. cbn [read_quoted].
    rewrite Ascii.eqb_refl.
    destruct rest as [|c' r]; [done|].
    destruct (Ascii.eqb_spec c' dquote) as [->|_]; [|done].
    vm_compute in Hrest. discriminate Hrest.
  - cbn [replace strings.HasPrefix]. rewrite andb_true_r.
    destruct (Ascii.eqb_spec dquote c) as [<-|Hne].
    + cbn [String.length Nat.sub]. rewrite !append_cons, append_nil.
      cbn [read_quoted]. rewrite !Ascii.eqb_refl. by rewrite IH.
    + rewrite append_cons. cbn [read_quoted].
      destruct (Ascii.eqb_spec c dquote) as [->|_]; [done|].
      by rewrite IH.
Qed.

(** X27. A quoted identifier, whatever bytes the identifier holds, is
    read back as that identifier and nothing more: the text that
    follows it, unless it begins with a double quote, is left as it
    is.  In particular no identifier ends its own quotes early. *)
Theorem QuoteIdentifier_reads_back identifier rest :
  strings.HasPrefix rest (String dquote EmptyString) = false ->
  read_identifier (QuoteIdentifier identifier +:+ rest)
  = Some (identifier, rest).
Proof.
  intros Hrest. unfold QuoteIdentifier, ReplaceAll. cbv zeta.
  rewrite !append_cons, !append_nil. cbn [read_identifier].
  rewrite Ascii.eqb_refl, append_assoc_string, append_cons, append_nil.
  by apply read_quoted_escaped.
Qed.

End QuotingExtras.

Lemma QuoteIdentifier_reads_back_witness :
  quoting.read_identifier
    (quoting.QuoteIdentifier
       (String "a" (String quoting.dquote (String "." "b"))) +:+ ".t")
  = Some (String "a" (String quoting.dquote (String "." "b")), ".t").
Proof.
  apply (QuoteIdentifier_reads_back
           (String "a" (String quoting.dquote (String "." "b"))) ".t").
  vm_compute. reflexivity.
Defined.
